(** * neo4jSocmed: the request-to-graph-query layer

    A shallow embedding of [app/main.py], [app/neo4j_driver.py] and
    [app/schemas.py].  The handlers of [main.py] each send one Cypher
    statement through the adapter of [neo4j_driver.py]; the statements are
    embedded as functions over an explicit property graph ([Graph]), the
    adapter as a record holding an optional backend, the handlers as
    functions from a graph to an outcome and a graph.

    Values the handlers draw from the environment ([uuid4()],
    [datetime.utcnow().isoformat()]) are explicit arguments. *)

From Stdlib Require Import List String Ascii ZArith Arith Bool Lia.
From Stdlib Require Import Permutation Sorted OrderedTypeEx.
Import ListNotations.

Open Scope string_scope.
Open Scope list_scope.

(** ** Values exchanged with the client and the store *)

(** What [rec.data()] yields and what FastAPI serialises. *)
#[warnings="-register-all"]
Inductive Json : Type :=
| JNull
| JStr (s : string)
| JInt (n : Z)
| JObj (fields : list (string * Json))
| JArr (items : list Json).

(** One result row: an ordered mapping from column name to value. *)
Definition Row : Type := list (string * Json).

Definition opt_str (o : option string) : Json :=
  match o with Some s => JStr s | None => JNull end.

Definition count_json (n : nat) : Json := JInt (Z.of_nat n).

(** Exceptions that can leave the adapter. *)
Inductive Exn : Type :=
| AttributeError            (* [self.driver] is [None] *)
| ConstraintError           (* a uniqueness constraint rejects a write *)
| ConstraintCreationFailed  (* existing data contradicts a new constraint *)
| ArgumentError             (* a negative [LIMIT] *)
| CypherSyntaxError
| ServiceUnavailable
| SessionExpired
| ResponseValidationError   (* a body that is not a [response_model] *)
| OverflowError.            (* an integer parameter beyond 64 bits *)

(** [str(e)], used for the [detail] of the 400 of [create_user].  The texts
    stand for the messages of the driver; the handlers pass them on unread. *)
Definition str (e : Exn) : string :=
  match e with
  | AttributeError => "'NoneType' object has no attribute 'session'"
  | ConstraintError => "Node already exists with the same unique property"
  | ConstraintCreationFailed => "Unable to create constraint"
  | ArgumentError => "Invalid input for LIMIT: must be a non-negative integer"
  | CypherSyntaxError => "Invalid input"
  | ServiceUnavailable => "Unable to retrieve routing information"
  | SessionExpired => "Session expired"
  | ResponseValidationError => "Input should be a valid dictionary"
  | OverflowError => "Integer out of range"
  end.

(** ** The property graph *)

(** Nodes carry a store-internal identity ([u_node], [p_node]); relationships
    are pairs of node identities kept in a list, so that parallel
    relationships (which the store permits) are representable. *)
Record User : Type := mkUser {
  u_node : nat;
  u_id : string;
  u_username : string;
  u_name : option string;
  u_bio : option string;
  u_created_at : string
}.

Record Post : Type := mkPost {
  p_node : nat;
  p_id : string;
  p_content : string;
  p_created_at : string
}.

Definition Rel : Type := (nat * nat)%type.

Record Graph : Type := mkGraph {
  users : list User;
  posts : list Post;
  FOLLOWS : list Rel;
  POSTED : list Rel;
  LIKED : list Rel;
  fresh : nat;                (* next unused node identity *)
  unique_username : bool;     (* constraint on (u:User) u.username *)
  unique_post_id : bool       (* constraint on (p:Post) p.id *)
}.

Definition empty_graph : Graph :=
  mkGraph [] [] [] [] [] 0 false false.

Definition rel_dec : forall x y : Rel, {x = y} + {x <> y}.
Proof. decide equality; apply Nat.eq_dec. Defined.

Definition set_FOLLOWS (E : list Rel) (g : Graph) : Graph :=
  mkGraph (users g) (posts g) E (POSTED g) (LIKED g) (fresh g)
          (unique_username g) (unique_post_id g).

Definition set_LIKED (E : list Rel) (g : Graph) : Graph :=
  mkGraph (users g) (posts g) (FOLLOWS g) (POSTED g) E (fresh g)
          (unique_username g) (unique_post_id g).

Definition add_user (u : User) (g : Graph) : Graph :=
  mkGraph (users g ++ [u]) (posts g) (FOLLOWS g) (POSTED g) (LIKED g)
          (S (fresh g)) (unique_username g) (unique_post_id g).

Definition add_post (author : nat) (p : Post) (g : Graph) : Graph :=
  mkGraph (users g) (posts g ++ [p]) (FOLLOWS g)
          (POSTED g ++ [(author, p_node p)]) (LIKED g)
          (S (fresh g)) (unique_username g) (unique_post_id g).

Definition set_unique_username (g : Graph) : Graph :=
  mkGraph (users g) (posts g) (FOLLOWS g) (POSTED g) (LIKED g) (fresh g)
          true (unique_post_id g).

Definition set_unique_post_id (g : Graph) : Graph :=
  mkGraph (users g) (posts g) (FOLLOWS g) (POSTED g) (LIKED g) (fresh g)
          (unique_username g) true.

(** ** Pattern matching of the statements *)

(** [(u:User {username: $username})] *)
Definition match_user (g : Graph) (username : string) : list User :=
  filter (fun u => u_username u =? username) (users g).

(** [(p:Post {id: $id})] *)
Definition match_post (g : Graph) (id : string) : list Post :=
  filter (fun p => p_id p =? id) (posts g).

(** The [User] nodes with a given identity (a label test on an endpoint). *)
Definition user_at (g : Graph) (n : nat) : list User :=
  filter (fun u => u_node u =? n)%nat (users g).

Definition post_at (g : Graph) (n : nat) : list Post :=
  filter (fun p => p_node p =? n)%nat (posts g).

(** [(x)-[:R]->(y:User)] for a bound [x]: one entry per relationship. *)
Definition out_users (g : Graph) (E : list Rel) (x : nat) : list User :=
  flat_map (fun e => if (fst e =? x)%nat then user_at g (snd e) else []) E.

(** [(y:User)-[:R]->(x)] for a bound [x]. *)
Definition in_users (g : Graph) (E : list Rel) (x : nat) : list User :=
  flat_map (fun e => if (snd e =? x)%nat then user_at g (fst e) else []) E.

(** [(x)-[:R]->(p:Post)] for a bound [x]. *)
Definition out_posts (g : Graph) (E : list Rel) (x : nat) : list Post :=
  flat_map (fun e => if (fst e =? x)%nat then post_at g (snd e) else []) E.

(** [OPTIONAL MATCH]: the matches, or a single null binding. *)
Definition optional {A : Type} (l : list A) : list (option A) :=
  match l with [] => [None] | _ => map Some l end.

(** Non-null bindings of a column. *)
Definition non_null {A : Type} (l : list (option A)) : list A :=
  flat_map (fun o => match o with Some a => [a] | None => [] end) l.

(** [MERGE (a)-[:R]->(b)] for one incoming row: the existing relationships
    between the pair are matched (one outgoing row each); when there is
    none, one is created.  Returns the relationships and the number of
    outgoing rows. *)
Definition merge_rel (e : Rel) (E : list Rel) : list Rel * nat :=
  match count_occ rel_dec E e with
  | O => (E ++ [e], 1)
  | k => (E, k)
  end.

(** [MERGE] over all incoming rows, in order; later rows see the
    relationships created for earlier ones. *)
Fixpoint merge_rows {A : Type} (ends : A -> Rel) (rows : list A)
         (E : list Rel) : list A * list Rel :=
  match rows with
  | [] => ([], E)
  | r :: rest =>
      let '(E1, k) := merge_rel (ends r) E in
      let '(out, E2) := merge_rows ends rest E1 in
      (repeat r k ++ out, E2)
  end.

(** ** The Cypher statements of [main.py] *)

(** The statement texts with their parameter dictionaries. *)
Inductive Cypher : Type :=
| ConstraintUsername
| ConstraintPostId
| CreateUser (id username : string) (name bio : option string)
             (created_at : string)
| GetUser (username : string)
| Follow (a b : string)
| Unfollow (a b : string)
| CreatePost (id content author_username created_at : string)
| GetPost (id : string)
| LikePost (username post_id : string)
| Feed (username : string) (limit : Z).

Definition Answer : Type := (Exn + list Row * Graph)%type.

Definition string_list_dec : forall x y : list string, {x = y} + {x <> y} :=
  list_eq_dec string_dec.

(** [CREATE CONSTRAINT IF NOT EXISTS FOR (u:User) REQUIRE u.username IS UNIQUE] *)
Definition run_constraint_username (g : Graph) : Answer :=
  if unique_username g then inr ([], g)
  else if string_list_dec (nodup string_dec (map u_username (users g)))
                          (map u_username (users g))
       then inr ([], set_unique_username g)
       else inl ConstraintCreationFailed.

(** [CREATE CONSTRAINT IF NOT EXISTS FOR (p:Post) REQUIRE p.id IS UNIQUE] *)
Definition run_constraint_post_id (g : Graph) : Answer :=
  if unique_post_id g then inr ([], g)
  else if string_list_dec (nodup string_dec (map p_id (posts g)))
                          (map p_id (posts g))
       then inr ([], set_unique_post_id g)
       else inl ConstraintCreationFailed.

(** [CREATE (u:User {...}) RETURN u.id AS id, u.username AS username,
    u.name AS name, u.bio AS bio] *)
Definition user_row (u : User) : Row :=
  [("id", JStr (u_id u)); ("username", JStr (u_username u));
   ("name", opt_str (u_name u)); ("bio", opt_str (u_bio u))].

Definition run_create_user (id username : string) (name bio : option string)
           (created_at : string) (g : Graph) : Answer :=
  if unique_username g && existsb (fun u => u_username u =? username) (users g)
  then inl ConstraintError
  else
    let u := mkUser (fresh g) id username name bio created_at in
    inr ([user_row u], add_user u g).

(** [MATCH (u:User {username: $username})
     OPTIONAL MATCH (u)-[:FOLLOWS]->(f:User)
     OPTIONAL MATCH (g:User)-[:FOLLOWS]->(u)
     OPTIONAL MATCH (u)-[:POSTED]->(p:Post)
     RETURN u.id, u.username, u.name, u.bio,
            count(DISTINCT f), count(DISTINCT g), count(DISTINCT p)] *)
Definition UserMatch : Type :=
  (User * option User * option User * option Post)%type.

Definition get_user_rows (g : Graph) (username : string) : list UserMatch :=
  flat_map (fun u =>
    flat_map (fun f =>
      flat_map (fun h =>
        map (fun p => (u, f, h, p))
            (optional (out_posts g (POSTED g) (u_node u))))
        (optional (in_users g (FOLLOWS g) (u_node u))))
      (optional (out_users g (FOLLOWS g) (u_node u))))
    (match_user g username).

Definition UserKey : Type :=
  (string * string * option string * option string)%type.

Definition user_key (u : User) : UserKey :=
  (u_id u, u_username u, u_name u, u_bio u).

Definition user_key_dec : forall x y : UserKey, {x = y} + {x <> y}.
Proof. repeat decide equality. Defined.

Definition um_user (r : UserMatch) : User := fst (fst (fst r)).
Definition um_f (r : UserMatch) : option User := snd (fst (fst r)).
Definition um_g (r : UserMatch) : option User := snd (fst r).
Definition um_p (r : UserMatch) : option Post := snd r.

(** [count(DISTINCT x)] over a column of nodes. *)
Definition count_distinct (nodes : list nat) : nat :=
  List.length (nodup Nat.eq_dec nodes).

Definition get_user_row (k : UserKey) (group : list UserMatch) : Row :=
  let '(id, username, name, bio) := k in
  [("id", JStr id); ("username", JStr username);
   ("name", opt_str name); ("bio", opt_str bio);
   ("following_count",
     count_json (count_distinct (map u_node (non_null (map um_f group)))));
   ("followers_count",
     count_json (count_distinct (map u_node (non_null (map um_g group)))));
   ("posts_count",
     count_json (count_distinct (map p_node (non_null (map um_p group)))))].

Definition run_get_user (username : string) (g : Graph) : Answer :=
  let rows := get_user_rows g username in
  let keys := nodup user_key_dec (map (fun r => user_key (um_user r)) rows) in
  inr (map (fun k =>
              get_user_row k
                (filter (fun r => if user_key_dec (user_key (um_user r)) k
                                  then true else false) rows))
           keys, g).

(** [MATCH (a:User {username: $a}), (b:User {username: $b})
     MERGE (a)-[r:FOLLOWS]->(b)
     RETURN a.username AS follower, b.username AS followee] *)
Definition follow_row (r : User * User) : Row :=
  [("follower", JStr (u_username (fst r)));
   ("followee", JStr (u_username (snd r)))].

Definition run_follow (a b : string) (g : Graph) : Answer :=
  let rows := list_prod (match_user g a) (match_user g b) in
  let '(out, E) :=
    merge_rows (fun r => (u_node (fst r), u_node (snd r))) rows (FOLLOWS g) in
  inr (map follow_row out, set_FOLLOWS E g).

(** [MATCH (a:User {username: $a})-[r:FOLLOWS]->(b:User {username: $b})
     DELETE r
     RETURN count(r) AS deleted] *)
Definition named (g : Graph) (n : nat) (username : string) : bool :=
  existsb (fun u => (u_node u =? n)%nat && (u_username u =? username))
          (users g).

Definition unfollow_matches (g : Graph) (a b : string) : list Rel :=
  flat_map (fun ua =>
    flat_map (fun e =>
      if (fst e =? u_node ua)%nat
      then map (fun _ => e)
               (filter (fun ub => u_username ub =? b) (user_at g (snd e)))
      else [])
      (FOLLOWS g))
    (match_user g a).

Definition run_unfollow (a b : string) (g : Graph) : Answer :=
  let rows := unfollow_matches g a b in
  let E := filter (fun e => negb (named g (fst e) a && named g (snd e) b))
                  (FOLLOWS g) in
  inr ([[("deleted", count_json (List.length rows))]], set_FOLLOWS E g).

(** [MATCH (a:User {username: $author_username})
     CREATE (p:Post {id: $id, content: $content, created_at: $created_at})
     CREATE (a)-[:POSTED]->(p)
     RETURN p.id AS id, a.username AS author_username,
            p.content AS content, p.created_at AS created_at] *)
Definition post_row (p : Post) (author : User) : Row :=
  [("id", JStr (p_id p)); ("author_username", JStr (u_username author));
   ("content", JStr (p_content p)); ("created_at", JStr (p_created_at p))].

Fixpoint create_posts (rows : list User) (id content created_at : string)
         (g : Graph) : Answer :=
  match rows with
  | [] => inr ([], g)
  | a :: rest =>
      if unique_post_id g && existsb (fun p => p_id p =? id) (posts g)
      then inl ConstraintError
      else
        let p := mkPost (fresh g) id content created_at in
        match create_posts rest id content created_at
                           (add_post (u_node a) p g) with
        | inl e => inl e
        | inr (recs, g') => inr (post_row p a :: recs, g')
        end
  end.

Definition run_create_post (id content author_username created_at : string)
           (g : Graph) : Answer :=
  create_posts (match_user g author_username) id content created_at g.

(** [MATCH (p:Post {id: $id})<-[:POSTED]-(a:User)
     OPTIONAL MATCH (u:User)-[:LIKED]->(p)
     RETURN p.id AS id, a.username AS author_username, p.content AS content,
            p.created_at AS created_at, count(u) AS likes] *)
Definition PostMatch : Type := (Post * User * option User)%type.

Definition get_post_rows (g : Graph) (id : string) : list PostMatch :=
  flat_map (fun p =>
    flat_map (fun a =>
      map (fun u => (p, a, u))
          (optional (in_users g (LIKED g) (p_node p))))
      (in_users g (POSTED g) (p_node p)))
    (match_post g id).

Definition PostKey : Type := (string * string * string * string)%type.

Definition post_key (r : PostMatch) : PostKey :=
  let '(p, a, _) := r in
  (p_id p, u_username a, p_content p, p_created_at p).

Definition post_key_dec : forall x y : PostKey, {x = y} + {x <> y}.
Proof. repeat decide equality. Defined.

Definition get_post_row (k : PostKey) (group : list PostMatch) : Row :=
  let '(id, author_username, content, created_at) := k in
  [("id", JStr id); ("author_username", JStr author_username);
   ("content", JStr content); ("created_at", JStr created_at);
   ("likes", count_json (List.length (non_null (map snd group))))].

Definition run_get_post (id : string) (g : Graph) : Answer :=
  let rows := get_post_rows g id in
  let keys := nodup post_key_dec (map post_key rows) in
  inr (map (fun k =>
              get_post_row k
                (filter (fun r => if post_key_dec (post_key r) k
                                  then true else false) rows))
           keys, g).

(** [MATCH (u:User {username: $username}), (p:Post {id: $post_id})
     MERGE (u)-[:LIKED]->(p)
     RETURN u.username AS username, p.id AS post_id] *)
Definition like_row (r : User * Post) : Row :=
  [("username", JStr (u_username (fst r))); ("post_id", JStr (p_id (snd r)))].

Definition run_like_post (username post_id : string) (g : Graph) : Answer :=
  let rows := list_prod (match_user g username) (match_post g post_id) in
  let '(out, E) :=
    merge_rows (fun r => (u_node (fst r), p_node (snd r))) rows (LIKED g) in
  inr (map like_row out, set_LIKED E g).

(** [MATCH (me:User {username: $username})-[:FOLLOWS]->(other:User)
           -[:POSTED]->(p:Post)
     RETURN p.id AS id, other.username AS author_username,
            p.content AS content, p.created_at AS created_at
     ORDER BY p.created_at DESC
     LIMIT $limit] *)
Definition feed_paths (g : Graph) (username : string) : list (Post * User) :=
  flat_map (fun me =>
    flat_map (fun other =>
      map (fun p => (p, other)) (out_posts g (POSTED g) (u_node other)))
      (out_users g (FOLLOWS g) (u_node me)))
    (match_user g username).

(** [ORDER BY p.created_at DESC]: the property is a string, compared as
    such.  The store leaves the order of rows with equal [created_at] open:
    [tie x y] says whether it then puts [x] before [y]. *)
Definition Tie : Type := Post * User -> Post * User -> bool.

Definition goes_before (tie : Tie) (x y : Post * User) : bool :=
  match (p_created_at (fst x) ?= p_created_at (fst y))%string with
  | Gt => true
  | Eq => tie x y
  | Lt => false
  end.

Fixpoint insert_desc (tie : Tie) (x : Post * User) (l : list (Post * User))
  : list (Post * User) :=
  match l with
  | [] => [x]
  | y :: l' => if goes_before tie x y then x :: y :: l'
               else y :: insert_desc tie x l'
  end.

Definition order_by_created_at_desc (tie : Tie) (l : list (Post * User))
  : list (Post * User) :=
  fold_right (insert_desc tie) [] l.

(** Ties left in the order in which the MATCH found the rows. *)
Definition as_matched : Tie := fun _ _ => true.

Definition feed_row (r : Post * User) : Row := post_row (fst r) (snd r).

(** [session.run] packs an integer parameter into 64 bits and raises
    [OverflowError] when it does not fit, before the statement is sent. *)
Definition int64 (n : Z) : bool :=
  ((- 2 ^ 63 <=? n) && (n <? 2 ^ 63))%Z.

Definition run_feed (tie : Tie) (username : string) (limit : Z) (g : Graph)
  : Answer :=
  if negb (int64 limit) then inl OverflowError
  else if (limit <? 0)%Z then inl ArgumentError
  else inr (map feed_row
                (firstn (Z.to_nat limit)
                        (order_by_created_at_desc tie
                           (feed_paths g username))),
            g).

(** The store: every statement of [main.py] against the graph.  A failing
    statement leaves the graph as it was. *)
Definition neo4j (q : Cypher) (g : Graph) : Answer :=
  match q with
  | ConstraintUsername => run_constraint_username g
  | ConstraintPostId => run_constraint_post_id g
  | CreateUser id username name bio created_at =>
      run_create_user id username name bio created_at g
  | GetUser username => run_get_user username g
  | Follow a b => run_follow a b g
  | Unfollow a b => run_unfollow a b g
  | CreatePost id content author_username created_at =>
      run_create_post id content author_username created_at g
  | GetPost id => run_get_post id g
  | LikePost username post_id => run_like_post username post_id g
  | Feed username limit => run_feed as_matched username limit g
  end.

(** The same store with another order of ties in the feed. *)
Definition neo4j_with (tie : Tie) (q : Cypher) (g : Graph) : Answer :=
  match q with
  | Feed username limit => run_feed tie username limit g
  | _ => neo4j q g
  end.

(** ** [neo4j_driver.py]: the adapter *)

(** What [session.run] does with a statement: answer with rows and the
    graph after it, or raise. *)
Definition Backend : Type := Cypher -> Graph -> Answer.

Record Neo4jDriver : Type := mkDriver { driver : option Backend }.

Definition neo4j_driver : Neo4jDriver := mkDriver None.

Definition init_app (connect : Backend) (self : Neo4jDriver) : Neo4jDriver :=
  match driver self with
  | None => mkDriver (Some connect)
  | Some _ => self
  end.

Definition close (self : Neo4jDriver) : Neo4jDriver :=
  match driver self with
  | Some _ => mkDriver None
  | None => self
  end.

Definition execute_read (self : Neo4jDriver) (cypher : Cypher) (g : Graph)
  : Answer :=
  match driver self with
  | None => inl AttributeError
  | Some session_run =>
      match session_run cypher g with
      | inl e => inl e
      | inr (result, g') => inr (map (fun rec => rec) result, g')
      end
  end.

Definition execute_write (self : Neo4jDriver) (cypher : Cypher) (g : Graph)
  : Answer :=
  match driver self with
  | None => inl AttributeError
  | Some session_run =>
      match session_run cypher g with
      | inl e => inl e
      | inr (result, g') => inr (map (fun rec => rec) result, g')
      end
  end.

(** ** [schemas.py] *)

Record UserCreate : Type := mkUserCreate {
  username : string;
  name : option string;
  bio : option string
}.

Record PostCreate : Type := mkPostCreate {
  author_username : string;
  content : string
}.

Record FollowAction : Type := mkFollowAction {
  follower_username : string;
  followee_username : string
}.

Record LikeAction : Type := mkLikeAction {
  like_username : string;
  like_post_id : string
}.

(** ** [main.py]: the request handlers *)

(** How a request ends: a response with its status code, an
    [HTTPException] raised by the handler, or an exception that leaves the
    handler uncaught (the framework answers 500 without a classified
    error). *)
Inductive Outcome : Type :=
| Returned (status : nat) (body : Json)
| HTTPException (status_code : nat) (detail : string)
| Unhandled (e : Exn).

Definition _single_or_none (records : list Row) : option Row :=
  match records with
  | [] => None
  | rec :: _ => Some rec
  end.

(** Python truth of [rec]: [None] and the empty dict are false. *)
Definition truthy (rec : option Row) : bool :=
  match rec with
  | None | Some [] => false
  | Some (_ :: _) => true
  end.

Definition json_of (rec : option Row) : Json :=
  match rec with Some r => JObj r | None => JNull end.

Definition startup (connect : Backend) (self : Neo4jDriver) (g : Graph)
  : option Exn * Neo4jDriver * Graph :=
  let self := init_app connect self in
  match execute_write self ConstraintUsername g with
  | inl e => (Some e, self, g)
  | inr (_, g1) =>
      match execute_write self ConstraintPostId g1 with
      | inl e => (Some e, self, g1)
      | inr (_, g2) => (None, self, g2)
      end
  end.

Definition shutdown (self : Neo4jDriver) : Neo4jDriver := close self.

Definition create_user (self : Neo4jDriver) (user_id created_at : string)
           (payload : UserCreate) (g : Graph) : Outcome * Graph :=
  match execute_write self
          (CreateUser user_id (username payload) (name payload) (bio payload)
                      created_at) g with
  | inl e => (HTTPException 400 (str e), g)
  | inr (records, g') =>
      match _single_or_none records with
      | Some rec => (Returned 201 (JObj rec), g')
      | None => (Unhandled ResponseValidationError, g')
      end
  end.

Definition get_user (self : Neo4jDriver) (username : string) (g : Graph)
  : Outcome * Graph :=
  match execute_read self (GetUser username) g with
  | inl e => (Unhandled e, g)
  | inr (records, g') =>
      let rec := _single_or_none records in
      if truthy rec then (Returned 200 (json_of rec), g')
      else (HTTPException 404 "User not found", g')
  end.

Definition follow (self : Neo4jDriver) (action : FollowAction) (g : Graph)
  : Outcome * Graph :=
  match execute_write self
          (Follow (follower_username action) (followee_username action)) g with
  | inl e => (Unhandled e, g)
  | inr (records, g') =>
      match records with
      | [] => (HTTPException 404 "One or both users not found", g')
      | rec :: _ =>
          (Returned 201 (JObj [("detail", JStr "OK"); ("data", JObj rec)]), g')
      end
  end.

Definition unfollow (self : Neo4jDriver) (action : FollowAction) (g : Graph)
  : Outcome * Graph :=
  match execute_write self
          (Unfollow (follower_username action) (followee_username action)) g
  with
  | inl e => (Unhandled e, g)
  | inr (_, g') => (Returned 200 (JObj [("detail", JStr "OK")]), g')
  end.

Definition create_post (self : Neo4jDriver) (post_id created_at : string)
           (payload : PostCreate) (g : Graph) : Outcome * Graph :=
  match execute_write self
          (CreatePost post_id (content payload) (author_username payload)
                      created_at) g with
  | inl e => (Unhandled e, g)
  | inr (records, g') =>
      let rec := _single_or_none records in
      if truthy rec then (Returned 201 (json_of rec), g')
      else (HTTPException 404 "Author not found", g')
  end.

Definition get_post (self : Neo4jDriver) (post_id : string) (g : Graph)
  : Outcome * Graph :=
  match execute_read self (GetPost post_id) g with
  | inl e => (Unhandled e, g)
  | inr (records, g') =>
      let rec := _single_or_none records in
      if truthy rec then (Returned 200 (json_of rec), g')
      else (HTTPException 404 "Post not found", g')
  end.

Definition like_post (self : Neo4jDriver) (post_id : string)
           (payload : LikeAction) (g : Graph) : Outcome * Graph :=
  match execute_write self (LikePost (like_username payload) post_id) g with
  | inl e => (Unhandled e, g)
  | inr (records, g') =>
      match records with
      | [] => (HTTPException 404 "User or post not found", g')
      | rec :: _ =>
          (Returned 200 (JObj [("detail", JStr "liked"); ("data", JObj rec)]),
           g')
      end
  end.

(** [limit: int = 20]: an absent query parameter means 20. *)
Definition get_feed (self : Neo4jDriver) (username : string)
           (limit : option Z) (g : Graph) : Outcome * Graph :=
  let limit := match limit with Some n => n | None => 20%Z end in
  match execute_read self (Feed username limit) g with
  | inl e => (Unhandled e, g)
  | inr (records, g') => (Returned 200 (JArr (map JObj records)), g')
  end.

(** The adapter once [startup] has connected it to the store. *)
Definition live : Neo4jDriver := init_app neo4j neo4j_driver.

(** The same, the store ordering ties by [tie]. *)
Definition live_with (tie : Tie) : Neo4jDriver :=
  init_app (neo4j_with tie) neo4j_driver.

(** ** Vocabulary of the properties *)

(** Some [User] node carries the username. *)
Definition user_exists (g : Graph) (username : string) : Prop :=
  exists u, In u (users g) /\ u_username u = username.

(** Some [Post] node carries the id. *)
Definition post_exists (g : Graph) (id : string) : Prop :=
  exists p, In p (posts g) /\ p_id p = id.

(** The [limit] the feed statement receives. *)
Definition limit_or_default (limit : option Z) : Z :=
  match limit with Some n => n | None => 20%Z end.


(** What holds of every graph the handlers build after [startup]: both
    constraints are declared, usernames, post ids and node identities are
    unique, no relationship is doubled, relationships join nodes of the
    right labels, and every post has exactly one POSTED relationship. *)
Record wf (g : Graph) : Prop := mkWf {
  wf_unique_username : unique_username g = true;
  wf_unique_post_id : unique_post_id g = true;
  wf_usernames : NoDup (map u_username (users g));
  wf_post_ids : NoDup (map p_id (posts g));
  wf_user_nodes : NoDup (map u_node (users g));
  wf_post_nodes : NoDup (map p_node (posts g));
  wf_user_fresh : forall u, In u (users g) -> u_node u < fresh g;
  wf_post_fresh : forall p, In p (posts g) -> p_node p < fresh g;
  wf_disjoint : forall u p, In u (users g) -> In p (posts g) ->
                            u_node u <> p_node p;
  wf_follows : NoDup (FOLLOWS g);
  wf_follows_ends : forall e, In e (FOLLOWS g) ->
      In (fst e) (map u_node (users g)) /\ In (snd e) (map u_node (users g));
  wf_liked : NoDup (LIKED g);
  wf_liked_ends : forall e, In e (LIKED g) ->
      In (fst e) (map u_node (users g)) /\ In (snd e) (map p_node (posts g));
  wf_posted_ends : forall e, In e (POSTED g) ->
      In (fst e) (map u_node (users g)) /\ In (snd e) (map p_node (posts g));
  wf_posted_one : NoDup (map snd (POSTED g));
  wf_posted_all : forall p, In p (posts g) ->
      In (p_node p) (map snd (POSTED g))
}.

(** The routes of [main.py] with their inputs. *)
Inductive Request : Type :=
| POST_users (user_id created_at : string) (payload : UserCreate)
| GET_users (username : string)
| POST_follow (action : FollowAction)
| POST_unfollow (action : FollowAction)
| POST_posts (post_id created_at : string) (payload : PostCreate)
| GET_posts (post_id : string)
| POST_like (post_id : string) (payload : LikeAction)
| GET_feed (username : string) (limit : option Z).

Definition handle (self : Neo4jDriver) (r : Request) (g : Graph)
  : Outcome * Graph :=
  match r with
  | POST_users user_id created_at payload =>
      create_user self user_id created_at payload g
  | GET_users k => get_user self k g
  | POST_follow action => follow self action g
  | POST_unfollow action => unfollow self action g
  | POST_posts post_id created_at payload =>
      create_post self post_id created_at payload g
  | GET_posts post_id => get_post self post_id g
  | POST_like post_id payload => like_post self post_id payload g
  | GET_feed k limit => get_feed self k limit g
  end.

(** The graph after [startup] on an empty store and any requests. *)
Definition serve (requests : list Request) : Graph :=
  fold_left (fun g r => snd (handle live r g)) requests
            (snd (startup neo4j neo4j_driver empty_graph)).

(** The same, as a predicate on graphs. *)
Inductive reachable : Graph -> Prop :=
| reach_startup :
    reachable (snd (startup neo4j neo4j_driver empty_graph))
| reach_handle (g : Graph) (r : Request) :
    reachable g -> reachable (snd (handle live r g)).

(** The bodies of the successful answers. *)
Definition follow_ok (a b : string) : Outcome :=
  Returned 201 (JObj [("detail", JStr "OK");
                      ("data", JObj [("follower", JStr a);
                                     ("followee", JStr b)])]).

(** The relationships that end, respectively start, at a node. *)
Definition into (x : nat) (E : list Rel) : list Rel :=
  filter (fun e => (snd e =? x)%nat) E.

Definition out_of (x : nat) (E : list Rel) : list Rel :=
  filter (fun e => (fst e =? x)%nat) E.

(** The users with a LIKED relationship to the post, each once. *)
Definition likers (g : Graph) (p : Post) : list nat :=
  nodup Nat.eq_dec (map fst (into (p_node p) (LIKED g))).

Definition get_post_ok (p : Post) (a : User) (likes : nat) : Outcome :=
  Returned 200 (JObj [("id", JStr (p_id p));
                      ("author_username", JStr (u_username a));
                      ("content", JStr (p_content p));
                      ("created_at", JStr (p_created_at p));
                      ("likes", count_json likes)]).

Definition like_ok (k post_id : string) : Outcome :=
  Returned 200 (JObj [("detail", JStr "liked");
                      ("data", JObj [("username", JStr k);
                                     ("post_id", JStr post_id)])]).

(** [newer x y]: the post of [x] was created no earlier than that of [y]. *)
Definition newer (x y : Post * User) : Prop :=
  (p_created_at (fst y) <=? p_created_at (fst x))%string = true.

(** A limit the feed statement is answered for. *)
Definition accepted_limit (n : Z) : Prop := (0 <= n < 2 ^ 63)%Z.

(** The record the feed lists for a post and its author. *)
Definition feed_entry (r : Post * User) : Json :=
  JObj [("id", JStr (p_id (fst r)));
        ("author_username", JStr (u_username (snd r)));
        ("content", JStr (p_content (fst r)));
        ("created_at", JStr (p_created_at (fst r)))].

(** One FOLLOWS hop from a user named [k], then one POSTED hop. *)
Definition feed_path (g : Graph) (k : string) (p : Post) (other : User)
  : Prop :=
  exists me, In me (users g) /\ u_username me = k
             /\ In other (users g) /\ In (u_node me, u_node other) (FOLLOWS g)
             /\ In p (posts g) /\ In (u_node other, p_node p) (POSTED g).

Definition rel_in (e : Rel) (E : list Rel) : bool :=
  if in_dec rel_dec e E then true else false.

(** [p] was posted by a user whom a user named [k] follows. *)
Definition by_followee (g : Graph) (k : string) (p : Post) : bool :=
  existsb (fun me =>
    (u_username me =? k)
    && existsb (fun other =>
         rel_in (u_node me, u_node other) (FOLLOWS g)
         && rel_in (u_node other, p_node p) (POSTED g))
         (users g))
    (users g).

Definition followee_posts (g : Graph) (k : string) : list Post :=
  filter (by_followee g k) (posts g).

(** The nodes a user follows, is followed by, and has posted. *)
Definition following (g : Graph) (u : User) : list nat :=
  map snd (out_of (u_node u) (FOLLOWS g)).

Definition followers (g : Graph) (u : User) : list nat :=
  map fst (into (u_node u) (FOLLOWS g)).

Definition authored (g : Graph) (u : User) : list nat :=
  map snd (out_of (u_node u) (POSTED g)).

Definition get_user_ok (u : User) (following_count followers_count
                                   posts_count : nat) : Outcome :=
  Returned 200 (JObj [("id", JStr (u_id u));
                      ("username", JStr (u_username u));
                      ("name", opt_str (u_name u));
                      ("bio", opt_str (u_bio u));
                      ("following_count", count_json following_count);
                      ("followers_count", count_json followers_count);
                      ("posts_count", count_json posts_count)]).

(** Sample data. *)
Definition alice : User := mkUser 0 "id-a" "alice" None None "t0".

Definition alice_alone : Graph :=
  serve [POST_users "id-a" "t0" (mkUserCreate "alice" None None);
         POST_posts "p1" "2024-05-01T10:00:00"
                    (mkPostCreate "alice" "hello world")].

Definition bob : User := mkUser 1 "id-b" "bob" None None "t1".

Definition hello : Post := mkPost 2 "p1" "hello world" "2024-05-01T10:00:00".

(** alice and bob sign up, bob follows alice, alice posts. *)
Definition bob_follows_alice : Graph :=
  serve [POST_users "id-a" "t0" (mkUserCreate "alice" None None);
         POST_users "id-b" "t1" (mkUserCreate "bob" None None);
         POST_follow (mkFollowAction "bob" "alice");
         POST_posts "p1" "2024-05-01T10:00:00"
                    (mkPostCreate "alice" "hello world")].

(** The rows of one matched user with three OPTIONAL MATCH clauses. *)
Definition product {F G P : Type} (u : User) (fs : list F) (gs : list G)
           (ps : list P) : list (User * F * G * P) :=
  flat_map (fun f => flat_map (fun h => map (fun p => (u, f, h, p)) ps) gs)
           fs.

(** [l'] is [l] with entries added at the end: nothing removed or changed. *)
Definition grows {A : Type} (l l' : list A) : Prop :=
  exists more, l' = l ++ more.

(** A [Post] node carries the id and a [User] node has a POSTED
    relationship to it: what the MATCH of get-post looks for. *)
Definition authored_post_exists (g : Graph) (id : string) : Prop :=
  exists p a, In p (posts g) /\ p_id p = id
              /\ In a (users g) /\ In (u_node a, p_node p) (POSTED g).

(** * Properties *)

(** ** The adapter in front of the store *)

Lemma execute_write_live (q : Cypher) (g : Graph) :
  execute_write live q g = neo4j q g.
Proof.
  unfold execute_write, live, init_app; simpl.
  destruct (neo4j q g) as [e | [rows g']]; [reflexivity |].
  now rewrite map_id.
Qed.

Lemma execute_read_live (q : Cypher) (g : Graph) :
  execute_read live q g = neo4j q g.
Proof.
  unfold execute_read, live, init_app; simpl.
  destruct (neo4j q g) as [e | [rows g']]; [reflexivity |].
  now rewrite map_id.
Qed.

(** ** Matching by a key *)

Lemma match_user_In (g : Graph) (k : string) (u : User) :
  In u (match_user g k) <-> In u (users g) /\ u_username u = k.
Proof.
  unfold match_user. rewrite filter_In, String.eqb_eq. tauto.
Qed.

Lemma match_post_In (g : Graph) (k : string) (p : Post) :
  In p (match_post g k) <-> In p (posts g) /\ p_id p = k.
Proof.
  unfold match_post. rewrite filter_In, String.eqb_eq. tauto.
Qed.

Lemma user_at_In (g : Graph) (n : nat) (u : User) :
  In u (user_at g n) <-> In u (users g) /\ u_node u = n.
Proof.
  unfold user_at. rewrite filter_In, Nat.eqb_eq. tauto.
Qed.

Lemma post_at_In (g : Graph) (n : nat) (p : Post) :
  In p (post_at g n) <-> In p (posts g) /\ p_node p = n.
Proof.
  unfold post_at. rewrite filter_In, Nat.eqb_eq. tauto.
Qed.

Lemma named_true (g : Graph) (n : nat) (k : string) :
  named g n k = true <->
  exists u, In u (users g) /\ u_node u = n /\ u_username u = k.
Proof.
  unfold named. rewrite existsb_exists. split.
  - intros [u [Hin H]]. apply andb_true_iff in H as [H1 H2].
    apply Nat.eqb_eq in H1. apply String.eqb_eq in H2. eauto.
  - intros [u [Hin [H1 H2]]]. exists u. split; [assumption |].
    apply andb_true_iff. now rewrite Nat.eqb_eq, String.eqb_eq.
Qed.

Lemma filter_nil_iff {A : Type} (f : A -> bool) (l : list A) :
  filter f l = [] <-> forall x, In x l -> f x = false.
Proof.
  induction l as [| y l IH]; simpl.
  - split; [intros _ x [] | reflexivity].
  - destruct (f y) eqn:Hy.
    + split; [discriminate |]. intros H. specialize (H y (or_introl eq_refl)).
      congruence.
    + rewrite IH. split.
      * intros H x [<- | Hx]; auto.
      * intros H x Hx. apply H. now right.
Qed.

Lemma filter_all {A : Type} (f : A -> bool) (l : list A) :
  (forall x, In x l -> f x = true) -> filter f l = l.
Proof.
  induction l as [| y l IH]; simpl; intros H; [reflexivity |].
  rewrite (H y (or_introl eq_refl)). f_equal. apply IH. intros; apply H.
  now right.
Qed.

(** ** Unfollow *)

Lemma unfollow_matches_In (g : Graph) (a b : string) (e : Rel) :
  In e (unfollow_matches g a b) <->
  In e (FOLLOWS g) /\ named g (fst e) a = true /\ named g (snd e) b = true.
Proof.
  unfold unfollow_matches. rewrite in_flat_map. split.
  - intros [ua [Hua H]]. apply match_user_In in Hua as [Hua Ha].
    apply in_flat_map in H as [e' [He' H]].
    destruct (fst e' =? u_node ua)%nat eqn:Hn; [| contradiction].
    apply Nat.eqb_eq in Hn. apply in_map_iff in H as [ub [<- Hub]].
    apply filter_In in Hub as [Hub Hb]. apply String.eqb_eq in Hb.
    apply user_at_In in Hub as [Hub Hnb].
    split; [assumption |]. split; apply named_true; eauto.
  - intros [He [Ha Hb]]. apply named_true in Ha as [ua [Hua [Hna Ha]]].
    apply named_true in Hb as [ub [Hub [Hnb Hb]]].
    exists ua. split; [now apply match_user_In |].
    apply in_flat_map. exists e. split; [assumption |].
    rewrite Hna, Nat.eqb_refl. apply in_map_iff. exists ub. split; [reflexivity |].
    apply filter_In. split; [now apply user_at_In | now apply String.eqb_eq].
Qed.

Lemma set_FOLLOWS_same (g : Graph) : set_FOLLOWS (FOLLOWS g) g = g.
Proof. now destruct g. Qed.

Lemma set_LIKED_same (g : Graph) : set_LIKED (LIKED g) g = g.
Proof. now destruct g. Qed.

Lemma unfollow_live (action : FollowAction) (g : Graph) :
  unfollow live action g =
  (Returned 200 (JObj [("detail", JStr "OK")]),
   set_FOLLOWS
     (filter (fun e => negb (named g (fst e) (follower_username action)
                             && named g (snd e) (followee_username action)))
             (FOLLOWS g)) g).
Proof.
  unfold unfollow. now rewrite execute_write_live.
Qed.

(** C8. For every ordered pair of usernames, unfollow answers 200 with the
    body [{"detail": "OK"}], whether or not the statement matched a FOLLOWS
    relationship between users of those names.  A matched relationship is
    deleted, every other relationship and every node stays, and when
    nothing matched the graph is left exactly as it was. *)
Theorem unfollow_lenient (action : FollowAction) (g : Graph) :
  let a := follower_username action in
  let b := followee_username action in
  let g' := snd (unfollow live action g) in
  fst (unfollow live action g) = Returned 200 (JObj [("detail", JStr "OK")])
  /\ (forall e, In e (unfollow_matches g a b) -> ~ In e (FOLLOWS g'))
  /\ (forall e, In e (FOLLOWS g) -> ~ In e (unfollow_matches g a b) ->
                In e (FOLLOWS g'))
  /\ (forall e, In e (FOLLOWS g') -> In e (FOLLOWS g))
  /\ users g' = users g /\ posts g' = posts g
  /\ POSTED g' = POSTED g /\ LIKED g' = LIKED g
  /\ (unfollow_matches g a b = [] -> g' = g).
Proof.
  intros a b g'. subst g'. rewrite unfollow_live. simpl. fold a b.
  split; [reflexivity |].
  split.
  { intros e He Hin. apply unfollow_matches_In in He as [_ [Ha Hb]].
    apply filter_In in Hin as [_ Hin]. rewrite Ha, Hb in Hin. discriminate. }
  split.
  { intros e He Hno. apply filter_In. split; [assumption |].
    destruct (named g (fst e) a && named g (snd e) b) eqn:Hn; [| reflexivity].
    apply andb_true_iff in Hn as [Ha Hb]. exfalso. apply Hno.
    now apply unfollow_matches_In. }
  split.
  { intros e He. now apply filter_In in He. }
  repeat (split; [reflexivity |]).
  intros Hnone. rewrite filter_all; [apply set_FOLLOWS_same |].
  intros e He.
  destruct (named g (fst e) a && named g (snd e) b) eqn:Hn; [| reflexivity].
  apply andb_true_iff in Hn as [Ha Hb]. exfalso.
  assert (Hin : In e (unfollow_matches g a b))
    by now apply unfollow_matches_In.
  now rewrite Hnone in Hin.
Qed.

(** ** Existence of the nodes a request names *)

Lemma match_user_nil (g : Graph) (k : string) :
  match_user g k = [] <-> ~ user_exists g k.
Proof.
  unfold match_user, user_exists. rewrite filter_nil_iff. split.
  - intros H [u [Hin Hk]]. specialize (H u Hin).
    apply String.eqb_neq in H. contradiction.
  - intros H u Hin. apply String.eqb_neq. intros Hk. apply H. eauto.
Qed.

Lemma match_post_nil (g : Graph) (k : string) :
  match_post g k = [] <-> ~ post_exists g k.
Proof.
  unfold match_post, post_exists. rewrite filter_nil_iff. split.
  - intros H [p [Hin Hk]]. specialize (H p Hin).
    apply String.eqb_neq in H. contradiction.
  - intros H p Hin. apply String.eqb_neq. intros Hk. apply H. eauto.
Qed.

Lemma list_prod_nil_r {A B : Type} (l : list A) : list_prod l (@nil B) = [].
Proof. induction l; simpl; auto. Qed.

(** ** MERGE *)

Lemma merge_rel_rows (e : Rel) (E : list Rel) : 0 < snd (merge_rel e E).
Proof.
  unfold merge_rel. destruct (count_occ rel_dec E e); simpl; lia.
Qed.

Lemma merge_rows_nil_out {A : Type} (ends : A -> Rel) (rows : list A)
      (E : list Rel) :
  fst (merge_rows ends rows E) = [] -> rows = [].
Proof.
  destruct rows as [| r rest]; [reflexivity |]. simpl.
  pose proof (merge_rel_rows (ends r) E) as Hk.
  destruct (merge_rel (ends r) E) as [E1 k]. simpl in Hk.
  destruct (merge_rows ends rest E1) as [out E2]. simpl.
  destruct k; [lia | discriminate].
Qed.

(** ** Handlers against the live store *)

Lemma follow_live (action : FollowAction) (g : Graph) :
  follow live action g =
  let rows := list_prod (match_user g (follower_username action))
                        (match_user g (followee_username action)) in
  let m := merge_rows (fun r => (u_node (fst r), u_node (snd r))) rows
                      (FOLLOWS g) in
  match map follow_row (fst m) with
  | [] => (HTTPException 404 "One or both users not found",
           set_FOLLOWS (snd m) g)
  | rec :: _ =>
      (Returned 201 (JObj [("detail", JStr "OK"); ("data", JObj rec)]),
       set_FOLLOWS (snd m) g)
  end.
Proof.
  unfold follow. rewrite execute_write_live. simpl. unfold run_follow.
  destruct (merge_rows _ _ _) as [out E]. reflexivity.
Qed.

Lemma like_post_live (post_id : string) (payload : LikeAction) (g : Graph) :
  like_post live post_id payload g =
  let rows := list_prod (match_user g (like_username payload))
                        (match_post g post_id) in
  let m := merge_rows (fun r => (u_node (fst r), p_node (snd r))) rows
                      (LIKED g) in
  match map like_row (fst m) with
  | [] => (HTTPException 404 "User or post not found", set_LIKED (snd m) g)
  | rec :: _ =>
      (Returned 200 (JObj [("detail", JStr "liked"); ("data", JObj rec)]),
       set_LIKED (snd m) g)
  end.
Proof.
  unfold like_post. rewrite execute_write_live. simpl. unfold run_like_post.
  destruct (merge_rows _ _ _) as [out E]. reflexivity.
Qed.

Lemma create_posts_no_rows (rows : list User) (id c t : string)
      (g g' : Graph) :
  create_posts rows id c t g = inr ([], g') -> rows = [] /\ g' = g.
Proof.
  destruct rows as [| a rest]; simpl.
  - intros H. inversion H. auto.
  - destruct (unique_post_id g && existsb _ (posts g)); [discriminate |].
    destruct (create_posts rest id c t _) as [e | [recs g2]]; discriminate.
Qed.

Lemma create_posts_rows_nonempty (rows : list User) (id c t : string)
      (g g' : Graph) (recs : list Row) :
  create_posts rows id c t g = inr (recs, g') ->
  truthy (_single_or_none recs) = false -> recs = [].
Proof.
  destruct rows as [| a rest]; simpl.
  - intros H. inversion H. auto.
  - destruct (unique_post_id g && existsb _ (posts g)); [discriminate |].
    destruct (create_posts rest id c t _) as [e | [recs2 g2]];
      [discriminate |].
    intros H. inversion H. subst. simpl. discriminate.
Qed.

Lemma get_user_live_missing (g : Graph) (k : string) :
  match_user g k = [] ->
  get_user live k g = (HTTPException 404 "User not found", g).
Proof.
  intros H. unfold get_user. rewrite execute_read_live. simpl.
  unfold run_get_user, get_user_rows. rewrite H. reflexivity.
Qed.

Lemma get_post_live_missing (g : Graph) (k : string) :
  match_post g k = [] ->
  get_post live k g = (HTTPException 404 "Post not found", g).
Proof.
  intros H. unfold get_post. rewrite execute_read_live. simpl.
  unfold run_get_post, get_post_rows. rewrite H. reflexivity.
Qed.

(** C5. get-user, get-post, follow, create-post and like answer 404 when a
    username or post id they name matches no node, and the graph after the
    call is the graph before it; moreover whenever follow, create-post or
    like answer 404 at all, the graph is unchanged. *)
Theorem not_found_changes_nothing (g : Graph) :
  (forall k, ~ user_exists g k ->
     get_user live k g = (HTTPException 404 "User not found", g))
  /\ (forall k, ~ post_exists g k ->
     get_post live k g = (HTTPException 404 "Post not found", g))
  /\ (forall action,
        ~ user_exists g (follower_username action) \/
        ~ user_exists g (followee_username action) ->
        follow live action g =
        (HTTPException 404 "One or both users not found", g))
  /\ (forall post_id created_at payload,
        ~ user_exists g (author_username payload) ->
        create_post live post_id created_at payload g =
        (HTTPException 404 "Author not found", g))
  /\ (forall post_id payload,
        ~ user_exists g (like_username payload) \/ ~ post_exists g post_id ->
        like_post live post_id payload g =
        (HTTPException 404 "User or post not found", g))
  /\ (forall action d g',
        follow live action g = (HTTPException 404 d, g') -> g' = g)
  /\ (forall post_id created_at payload d g',
        create_post live post_id created_at payload g =
        (HTTPException 404 d, g') -> g' = g)
  /\ (forall post_id payload d g',
        like_post live post_id payload g = (HTTPException 404 d, g') ->
        g' = g).
Proof.
  split; [intros k H; apply get_user_live_missing; now apply match_user_nil |].
  split; [intros k H; apply get_post_live_missing; now apply match_post_nil |].
  split.
  { intros action H. rewrite follow_live.
    assert (Hrows : list_prod (match_user g (follower_username action))
                              (match_user g (followee_username action)) = []).
    { destruct H as [H | H]; apply match_user_nil in H; rewrite H;
        [reflexivity | apply list_prod_nil_r]. }
    rewrite Hrows. simpl. now rewrite set_FOLLOWS_same. }
  split.
  { intros post_id created_at payload H. apply match_user_nil in H.
    unfold create_post. rewrite execute_write_live. simpl.
    unfold run_create_post. rewrite H. reflexivity. }
  split.
  { intros post_id payload H. rewrite like_post_live.
    assert (Hrows : list_prod (match_user g (like_username payload))
                              (match_post g post_id) = []).
    { destruct H as [H | H];
        [apply match_user_nil in H | apply match_post_nil in H]; rewrite H;
        [reflexivity | apply list_prod_nil_r]. }
    rewrite Hrows. simpl. now rewrite set_LIKED_same. }
  split.
  { intros action d g'. rewrite follow_live. cbv zeta.
    destruct (merge_rows _ _ (FOLLOWS g)) as [out E] eqn:Hm. simpl.
    destruct out as [| r out]; simpl; [| discriminate].
    intros H. inversion H. subst.
    assert (Hr : fst (merge_rows (fun r => (u_node (fst r), u_node (snd r)))
                   (list_prod (match_user g (follower_username action))
                              (match_user g (followee_username action)))
                   (FOLLOWS g)) = []) by now rewrite Hm.
    apply merge_rows_nil_out in Hr. rewrite Hr in Hm. simpl in Hm.
    inversion Hm. apply set_FOLLOWS_same. }
  split.
  { intros post_id created_at payload d g'. unfold create_post.
    rewrite execute_write_live. simpl. unfold run_create_post.
    destruct (create_posts _ _ _ _ g) as [e | [recs g1]] eqn:Hc;
      [discriminate |].
    destruct (truthy (_single_or_none recs)) eqn:Ht; [discriminate |].
    intros H. inversion H. subst.
    pose proof (create_posts_rows_nonempty _ _ _ _ _ _ _ Hc Ht). subst.
    now apply create_posts_no_rows in Hc. }
  intros post_id payload d g'. rewrite like_post_live. cbv zeta.
  destruct (merge_rows _ _ (LIKED g)) as [out E] eqn:Hm. simpl.
  destruct out as [| r out]; simpl; [| discriminate].
  intros H. inversion H. subst.
  assert (Hr : fst (merge_rows (fun r => (u_node (fst r), p_node (snd r)))
                 (list_prod (match_user g (like_username payload))
                            (match_post g post_id))
                 (LIKED g)) = []) by now rewrite Hm.
  apply merge_rows_nil_out in Hr. rewrite Hr in Hm. simpl in Hm.
  inversion Hm. apply set_LIKED_same.
Qed.

(** ** Feed: outcome *)

Lemma execute_read_live_with (tie : Tie) (q : Cypher) (g : Graph) :
  execute_read (live_with tie) q g = neo4j_with tie q g.
Proof.
  unfold execute_read, live_with, init_app; simpl.
  destruct (neo4j_with tie q g) as [e | [rows g']]; [reflexivity |].
  now rewrite map_id.
Qed.

Lemma accepted_limit_int64 (n : Z) :
  accepted_limit n -> int64 n = true /\ (n <? 0)%Z = false.
Proof.
  unfold accepted_limit, int64. intros [H0 H1]. split.
  - apply andb_true_iff. split; [apply Z.leb_le | apply Z.ltb_lt]; lia.
  - apply Z.ltb_ge. lia.
Qed.

Lemma feed_entries (l : list (Post * User)) :
  map JObj (map feed_row l) = map feed_entry l.
Proof. rewrite map_map. reflexivity. Qed.

Lemma get_feed_live (tie : Tie) (k : string) (limit : option Z) (g : Graph) :
  accepted_limit (limit_or_default limit) ->
  get_feed (live_with tie) k limit g =
  (Returned 200
     (JArr (map feed_entry
              (firstn (Z.to_nat (limit_or_default limit))
                      (order_by_created_at_desc tie (feed_paths g k))))), g).
Proof.
  intros Hl. unfold get_feed. fold (limit_or_default limit).
  rewrite execute_read_live_with. cbn [neo4j_with]. unfold run_feed.
  destruct (accepted_limit_int64 _ Hl) as [-> ->]. cbn [negb].
  now rewrite feed_entries.
Qed.

Lemma get_feed_rejects (tie : Tie) (k : string) (limit : option Z)
      (g : Graph) :
  ~ accepted_limit (limit_or_default limit) ->
  get_feed (live_with tie) k limit g
  = (Unhandled (if int64 (limit_or_default limit)
                then ArgumentError else OverflowError), g).
Proof.
  intros Hl. unfold get_feed. fold (limit_or_default limit).
  rewrite execute_read_live_with. cbn [neo4j_with]. unfold run_feed.
  destruct (int64 (limit_or_default limit)) eqn:Hi; cbn [negb];
    [| reflexivity].
  destruct (limit_or_default limit <? 0)%Z eqn:Hneg; [reflexivity |].
  exfalso. apply Hl. unfold accepted_limit, int64 in *.
  apply andb_true_iff in Hi as [_ Hi]. apply Z.ltb_lt in Hi.
  apply Z.ltb_ge in Hneg. lia.
Qed.

Lemma flat_map_all_nil {A B : Type} (f : A -> list B) (l : list A) :
  (forall x, In x l -> f x = []) -> flat_map f l = [].
Proof.
  induction l as [| y l IH]; simpl; intros H; [reflexivity |].
  rewrite (H y (or_introl eq_refl)). simpl. apply IH. intros; apply H.
  now right.
Qed.

Lemma accepted_limit_dec (n : Z) : {accepted_limit n} + {~ accepted_limit n}.
Proof.
  unfold accepted_limit.
  destruct (Z_le_dec 0 n); [| right; lia].
  destruct (Z_lt_dec n (2 ^ 63)); [left | right]; lia.
Qed.

(** C6, as stated, fails: a feed request does not answer 200 for every
    username, because the answer also depends on the limit sent with it.
    A limit of 2^63 makes the driver raise [OverflowError], a negative one
    makes the store reject the statement; both leave the handler uncaught,
    for a known and for an unknown username alike. *)
Lemma feed_fails_on_limit :
  get_feed live "ghost" (Some (2 ^ 63)%Z) empty_graph
  = (Unhandled OverflowError, empty_graph)
  /\ get_feed live "ghost" (Some (-1)%Z) empty_graph
     = (Unhandled ArgumentError, empty_graph)
  /\ forall posts,
       fst (get_feed live "ghost" (Some (2 ^ 63)%Z) empty_graph)
       <> Returned 200 (JArr posts).
Proof.
  split; [reflexivity |]. split; [reflexivity |].
  intros posts. discriminate.
Qed.

(** C6, amended. Whatever the username, the limit and the order of ties,
    the feed never raises an [HTTPException], so it never reports
    not-found.  For every limit from 0 up to 2^63 - 1 (the default 20
    included) it answers 200 with a sequence, and an unknown username and a
    user without followees both get the empty sequence.  For any other
    limit the request ends with an uncaught error that does not depend on
    the username. *)
Theorem feed_never_not_found (tie : Tie) (k : string) (limit : option Z)
        (g : Graph) :
  (forall c d, fst (get_feed (live_with tie) k limit g) <> HTTPException c d)
  /\ (accepted_limit (limit_or_default limit) ->
      (exists posts,
          get_feed (live_with tie) k limit g = (Returned 200 (JArr posts), g))
      /\ (~ user_exists g k ->
          get_feed (live_with tie) k limit g = (Returned 200 (JArr []), g))
      /\ ((forall me other, In me (users g) -> u_username me = k ->
                            In other (users g) ->
                            ~ In (u_node me, u_node other) (FOLLOWS g)) ->
          get_feed (live_with tie) k limit g = (Returned 200 (JArr []), g)))
  /\ (~ accepted_limit (limit_or_default limit) ->
      forall k',
        get_feed (live_with tie) k' limit g
        = (Unhandled (if int64 (limit_or_default limit)
                      then ArgumentError else OverflowError), g)).
Proof.
  split.
  { intros c d. destruct (accepted_limit_dec (limit_or_default limit)) as [H | H].
    - rewrite (get_feed_live tie k limit g H). discriminate.
    - rewrite (get_feed_rejects tie k limit g H). discriminate. }
  split; [| intros H k'; now apply get_feed_rejects].
  intros Hl. rewrite (get_feed_live tie k limit g Hl).
  split; [eexists; reflexivity |].
  assert (Hempty : (forall me other, In me (users g) -> u_username me = k ->
                      In other (users g) ->
                      ~ In (u_node me, u_node other) (FOLLOWS g)) ->
                   feed_paths g k = []).
  { intros H. unfold feed_paths. apply flat_map_all_nil. intros me Hme.
    apply match_user_In in Hme as [Hme Hk].
    apply flat_map_all_nil. intros other Ho. exfalso.
    unfold out_users in Ho. apply in_flat_map in Ho as [e [He Ho]].
    destruct (fst e =? u_node me)%nat eqn:Hn; [| contradiction].
    apply Nat.eqb_eq in Hn. apply user_at_In in Ho as [Ho Hno].
    apply (H me other Hme Hk Ho). rewrite Hno, <- Hn. now destruct e. }
  split.
  - intros Hno. rewrite Hempty; [now rewrite firstn_nil |].
    intros me other Hme Hk _ _. apply Hno. now exists me.
  - intros H. rewrite (Hempty H). now rewrite firstn_nil.
Qed.

Lemma feed_never_not_found_witness :
  (exists posts,
      get_feed live "ghost" None empty_graph
      = (Returned 200 (JArr posts), empty_graph))
  /\ (~ user_exists empty_graph "ghost" ->
      get_feed live "ghost" None empty_graph
      = (Returned 200 (JArr []), empty_graph)).
Proof.
  pose proof (feed_never_not_found as_matched "ghost" None empty_graph)
    as [_ [H _]].
  assert (Hl : accepted_limit (limit_or_default None))
    by (unfold accepted_limit; simpl; lia).
  destruct (H Hl) as [H1 [H2 _]]. split; assumption.
Defined.

(** ** Creating users *)

Lemma existsb_username (g : Graph) (k : string) :
  existsb (fun u => u_username u =? k) (users g) = true <-> user_exists g k.
Proof.
  rewrite existsb_exists. unfold user_exists.
  split; intros [u [Hin H]]; exists u; split; auto;
    now apply String.eqb_eq.
Qed.

Lemma startup_live (g0 g : Graph) (self : Neo4jDriver) :
  startup neo4j neo4j_driver g0 = (None, self, g) ->
  self = live /\ unique_username g = true /\ unique_post_id g = true
  /\ users g = users g0 /\ posts g = posts g0 /\ FOLLOWS g = FOLLOWS g0
  /\ POSTED g = POSTED g0 /\ LIKED g = LIKED g0 /\ fresh g = fresh g0.
Proof.
  unfold startup. fold live. rewrite execute_write_live. simpl.
  unfold run_constraint_username.
  destruct (unique_username g0) eqn:Hu.
  - rewrite execute_write_live. simpl. unfold run_constraint_post_id.
    destruct (unique_post_id g0) eqn:Hp.
    + intros H. inversion H. subst. tauto.
    + destruct (string_list_dec _ _); [| discriminate].
      intros H. inversion H. subst. simpl. tauto.
  - destruct (string_list_dec _ _); [| discriminate].
    rewrite execute_write_live. simpl. unfold run_constraint_post_id. simpl.
    destruct (unique_post_id g0) eqn:Hp.
    + intros H. inversion H. subst. simpl. tauto.
    + destruct (string_list_dec _ _); [| discriminate].
      intros H. inversion H. subst. simpl. tauto.
Qed.

(** C4. Once [startup] has declared the constraints, creating a user whose
    username is not yet taken answers 201 with id, username, name and bio,
    and creating a user of the same username again answers 400: the store
    rejects the second CREATE by the uniqueness constraint, the handler
    turns that exception into the 400, and the graph keeps the one node. *)
Theorem create_user_twice (g0 g : Graph) (self : Neo4jDriver)
        (id1 t1 id2 t2 : string) (first second : UserCreate) :
  startup neo4j neo4j_driver g0 = (None, self, g) ->
  ~ user_exists g (username first) ->
  username second = username first ->
  let r1 := create_user self id1 t1 first g in
  let r2 := create_user self id2 t2 second (snd r1) in
  fst r1 = Returned 201 (JObj [("id", JStr id1);
                               ("username", JStr (username first));
                               ("name", opt_str (name first));
                               ("bio", opt_str (bio first))])
  /\ execute_write self
       (CreateUser id2 (username second) (name second) (bio second) t2)
       (snd r1) = inl ConstraintError
  /\ fst r2 = HTTPException 400 (str ConstraintError)
  /\ snd r2 = snd r1
  /\ match_user (snd r2) (username first)
     = [mkUser (fresh g) id1 (username first) (name first) (bio first) t1].
Proof.
  intros Hs Hnew Hsame r1 r2.
  apply startup_live in Hs as [-> [Hu _]].
  assert (H1 : r1 = (Returned 201 (JObj [("id", JStr id1);
                               ("username", JStr (username first));
                               ("name", opt_str (name first));
                               ("bio", opt_str (bio first))]),
                     add_user (mkUser (fresh g) id1 (username first)
                                      (name first) (bio first) t1) g)).
  { subst r1. unfold create_user. rewrite execute_write_live. simpl.
    unfold run_create_user. rewrite Hu. simpl.
    destruct (existsb _ (users g)) eqn:He; [| reflexivity].
    apply existsb_username in He. contradiction. }
  assert (H2 : neo4j (CreateUser id2 (username second) (name second)
                                 (bio second) t2) (snd r1)
               = inl ConstraintError).
  { rewrite H1. simpl. unfold run_create_user. simpl. rewrite Hu. simpl.
    rewrite existsb_app. simpl. rewrite Hsame, String.eqb_refl.
    now rewrite orb_true_r. }
  split; [now rewrite H1 |].
  split; [now rewrite execute_write_live |].
  assert (H3 : r2 = (HTTPException 400 (str ConstraintError), snd r1)).
  { subst r2. unfold create_user at 1. rewrite execute_write_live.
    now rewrite H2. }
  rewrite H3. simpl. split; [reflexivity |]. split; [reflexivity |].
  rewrite H1. simpl. unfold match_user. simpl. rewrite filter_app. simpl.
  rewrite String.eqb_refl. apply match_user_nil in Hnew.
  unfold match_user in Hnew. now rewrite Hnew.
Qed.

Lemma create_user_twice_witness :
  let g := snd (startup neo4j neo4j_driver empty_graph) in
  let r1 := create_user live "id-1" "2024-01-01T00:00:00"
                        (mkUserCreate "alice" (Some "Alice") None) g in
  let r2 := create_user live "id-2" "2024-01-02T00:00:00"
                        (mkUserCreate "alice" None (Some "again")) (snd r1) in
  fst r1 = Returned 201 (JObj [("id", JStr "id-1");
                               ("username", JStr "alice");
                               ("name", JStr "Alice");
                               ("bio", JNull)])
  /\ execute_write live
       (CreateUser "id-2" "alice" None (Some "again") "2024-01-02T00:00:00")
       (snd r1) = inl ConstraintError
  /\ fst r2 = HTTPException 400 (str ConstraintError)
  /\ snd r2 = snd r1
  /\ match_user (snd r2) "alice"
     = [mkUser 0 "id-1" "alice" (Some "Alice") None "2024-01-01T00:00:00"].
Proof.
  apply (create_user_twice empty_graph
           (snd (startup neo4j neo4j_driver empty_graph)) live
           "id-1" "2024-01-01T00:00:00" "id-2" "2024-01-02T00:00:00"
           (mkUserCreate "alice" (Some "Alice") None)
           (mkUserCreate "alice" None (Some "again"))).
  - reflexivity.
  - intros [u [Hin _]]. exact Hin.
  - reflexivity.
Defined.

(** ** Store and transport failures *)




(** ** The invariant of the graphs the handlers build *)

(** A key without duplicates selects at most one element. *)
Section UniqueKey.
Context {A K : Type} (key : A -> K) (eqb : K -> K -> bool).
Hypothesis eqb_eq : forall a b, eqb a b = true <-> a = b.

Lemma filter_unique_key (l : list A) (x : A) :
  NoDup (map key l) -> In x l ->
  filter (fun y => eqb (key y) (key x)) l = [x].
Proof.
  induction l as [| y l IH]; simpl; intros Hnd Hin; [contradiction |].
  inversion Hnd as [| ? ? Hy Hnd']; subst.
  destruct Hin as [-> | Hin].
  - rewrite (proj2 (eqb_eq (key x) (key x)) eq_refl). f_equal.
    apply filter_nil_iff. intros z Hz.
    destruct (eqb (key z) (key x)) eqn:Hzx; [| reflexivity].
    apply eqb_eq in Hzx. exfalso. apply Hy. rewrite <- Hzx.
    now apply in_map.
  - destruct (eqb (key y) (key x)) eqn:Hyx.
    + apply eqb_eq in Hyx. exfalso. apply Hy. rewrite Hyx.
      now apply in_map.
    + now apply IH.
Qed.
End UniqueKey.

Lemma match_user_unique (g : Graph) (u : User) :
  wf g -> In u (users g) -> match_user g (u_username u) = [u].
Proof.
  intros Hwf Hin. unfold match_user.
  apply (filter_unique_key u_username String.eqb String.eqb_eq);
    [apply (wf_usernames g Hwf) | assumption].
Qed.

Lemma match_post_unique (g : Graph) (p : Post) :
  wf g -> In p (posts g) -> match_post g (p_id p) = [p].
Proof.
  intros Hwf Hin. unfold match_post.
  apply (filter_unique_key p_id String.eqb String.eqb_eq);
    [apply (wf_post_ids g Hwf) | assumption].
Qed.

Lemma user_at_unique (g : Graph) (u : User) :
  wf g -> In u (users g) -> user_at g (u_node u) = [u].
Proof.
  intros Hwf Hin. unfold user_at.
  apply (filter_unique_key u_node Nat.eqb Nat.eqb_eq);
    [apply (wf_user_nodes g Hwf) | assumption].
Qed.

Lemma post_at_unique (g : Graph) (p : Post) :
  wf g -> In p (posts g) -> post_at g (p_node p) = [p].
Proof.
  intros Hwf Hin. unfold post_at.
  apply (filter_unique_key p_node Nat.eqb Nat.eqb_eq);
    [apply (wf_post_nodes g Hwf) | assumption].
Qed.

(** ** What MERGE does to the relationships *)

Lemma merge_rel_new (e : Rel) (E : list Rel) :
  ~ In e E -> merge_rel e E = (E ++ [e], 1).
Proof.
  intros H. unfold merge_rel.
  now rewrite (proj1 (count_occ_not_In rel_dec E e) H).
Qed.

Lemma merge_rel_old (e : Rel) (E : list Rel) :
  NoDup E -> In e E -> merge_rel e E = (E, 1).
Proof.
  intros Hnd H. unfold merge_rel.
  pose proof (proj1 (NoDup_count_occ rel_dec E) Hnd e) as Hle.
  pose proof (proj1 (count_occ_In rel_dec E e) H) as Hgt.
  destruct (count_occ rel_dec E e) as [| [| k]]; [lia | reflexivity | lia].
Qed.

Lemma merge_rel_cases (e : Rel) (E : list Rel) :
  (~ In e E /\ fst (merge_rel e E) = E ++ [e])
  \/ (In e E /\ fst (merge_rel e E) = E).
Proof.
  unfold merge_rel. destruct (count_occ rel_dec E e) eqn:Hc.
  - left. split; [now apply count_occ_not_In in Hc | reflexivity].
  - right. split; [| reflexivity].
    apply (count_occ_In rel_dec). lia.
Qed.

Lemma merge_rows_snd {A : Type} (ends : A -> Rel) (r : A) (rest : list A)
      (E : list Rel) :
  snd (merge_rows ends (r :: rest) E)
  = snd (merge_rows ends rest (fst (merge_rel (ends r) E))).
Proof.
  simpl. destruct (merge_rel (ends r) E) as [E1 k]. simpl.
  now destruct (merge_rows ends rest E1).
Qed.

Lemma merge_rows_NoDup {A : Type} (ends : A -> Rel) (rows : list A) :
  forall E, NoDup E -> NoDup (snd (merge_rows ends rows E)).
Proof.
  induction rows as [| r rest IH]; intros E Hnd; [assumption |].
  rewrite merge_rows_snd. apply IH.
  destruct (merge_rel_cases (ends r) E) as [[Hno ->] | [_ ->]];
    [| assumption].
  apply NoDup_app; [assumption | repeat constructor; intros [] |].
  intros x Hx [<- | []]. contradiction.
Qed.

Lemma merge_rows_In {A : Type} (ends : A -> Rel) (rows : list A) :
  forall E e, In e (snd (merge_rows ends rows E)) <->
              In e E \/ exists r, In r rows /\ ends r = e.
Proof.
  induction rows as [| r rest IH]; intros E e.
  - simpl. split; [auto | intros [H | [r [[] _]]]; assumption].
  - rewrite merge_rows_snd, IH.
    destruct (merge_rel_cases (ends r) E) as [[Hno ->] | [Hin ->]].
    + rewrite in_app_iff. simpl. split.
      * intros [[H | [H | []]] | [r' [Hr' He]]]; eauto.
      * intros [H | [r' [[<- | Hr'] He]]]; eauto.
    + split.
      * intros [H | [r' [Hr' He]]]; eauto.
        right. exists r'. split; [now right | assumption].
      * intros [H | [r' [[<- | Hr'] He]]]; eauto.
        left. now rewrite <- He.
Qed.

(** ** The handlers keep the invariant *)

Lemma NoDup_snoc {A : Type} (l : list A) (x : A) :
  NoDup l -> ~ In x l -> NoDup (l ++ [x]).
Proof.
  intros Hnd Hx. apply NoDup_app; [assumption | repeat constructor; intros [] |].
  intros y Hy [<- | []]. contradiction.
Qed.

Lemma in_map_snoc {A B : Type} (f : A -> B) (l : list A) (x : A) (b : B) :
  In b (map f l) -> In b (map f (l ++ [x])).
Proof. rewrite map_app, in_app_iff. auto. Qed.

Lemma wf_set_FOLLOWS (g : Graph) (E : list Rel) :
  wf g -> NoDup E ->
  (forall e, In e E ->
     In (fst e) (map u_node (users g)) /\ In (snd e) (map u_node (users g))) ->
  wf (set_FOLLOWS E g).
Proof.
  intros [] Hnd Hends. constructor; simpl; assumption.
Qed.

Lemma wf_set_LIKED (g : Graph) (E : list Rel) :
  wf g -> NoDup E ->
  (forall e, In e E ->
     In (fst e) (map u_node (users g)) /\ In (snd e) (map p_node (posts g))) ->
  wf (set_LIKED E g).
Proof.
  intros [] Hnd Hends. constructor; simpl; assumption.
Qed.

Lemma wf_add_user (g : Graph) (u : User) :
  wf g -> ~ user_exists g (u_username u) -> u_node u = fresh g ->
  wf (add_user u g).
Proof.
  intros [] Hnew Hnode. constructor; simpl; try assumption.
  - rewrite map_app. simpl. apply NoDup_snoc; [assumption |].
    intros Hin. apply in_map_iff in Hin as [v [Hv Hin]].
    apply Hnew. exists v. auto.
  - rewrite map_app. simpl. apply NoDup_snoc; [assumption |].
    intros Hin. apply in_map_iff in Hin as [v [Hv Hin]].
    specialize (wf_user_fresh0 v Hin). lia.
  - intros v Hv. apply in_app_iff in Hv as [Hv | [<- | []]].
    + specialize (wf_user_fresh0 v Hv). lia.
    + lia.
  - intros p Hp. specialize (wf_post_fresh0 p Hp). lia.
  - intros v p Hv Hp. apply in_app_iff in Hv as [Hv | [<- | []]];
      [now apply wf_disjoint0 |].
    specialize (wf_post_fresh0 p Hp). lia.
  - intros e He. destruct (wf_follows_ends0 e He). split; now apply in_map_snoc.
  - intros e He. destruct (wf_liked_ends0 e He).
    split; [now apply in_map_snoc | assumption].
  - intros e He. destruct (wf_posted_ends0 e He).
    split; [now apply in_map_snoc | assumption].
Qed.

Lemma wf_add_post (g : Graph) (a : User) (p : Post) :
  wf g -> In a (users g) -> ~ post_exists g (p_id p) -> p_node p = fresh g ->
  wf (add_post (u_node a) p g).
Proof.
  intros [] Ha Hnew Hnode. constructor; simpl; try assumption.
  - rewrite map_app. simpl. apply NoDup_snoc; [assumption |].
    intros Hin. apply in_map_iff in Hin as [q [Hq Hin]].
    apply Hnew. exists q. auto.
  - rewrite map_app. simpl. apply NoDup_snoc; [assumption |].
    intros Hin. apply in_map_iff in Hin as [q [Hq Hin]].
    specialize (wf_post_fresh0 q Hin). lia.
  - intros v Hv. specialize (wf_user_fresh0 v Hv). lia.
  - intros q Hq. apply in_app_iff in Hq as [Hq | [<- | []]].
    + specialize (wf_post_fresh0 q Hq). lia.
    + lia.
  - intros v q Hv Hq. apply in_app_iff in Hq as [Hq | [<- | []]];
      [now apply wf_disjoint0 |].
    specialize (wf_user_fresh0 v Hv). lia.
  - intros e He. destruct (wf_liked_ends0 e He).
    split; [assumption | now apply in_map_snoc].
  - intros e He. apply in_app_iff in He as [He | [<- | []]].
    + destruct (wf_posted_ends0 e He).
      split; [assumption | now apply in_map_snoc].
    + simpl. split; [now apply in_map |].
      rewrite map_app, in_app_iff. simpl. auto.
  - rewrite map_app. simpl. apply NoDup_snoc; [assumption |].
    intros Hin. apply in_map_iff in Hin as [e [He Hin]].
    destruct (wf_posted_ends0 e Hin) as [_ Hq].
    apply in_map_iff in Hq as [q [Hq Hqin]].
    specialize (wf_post_fresh0 q Hqin). lia.
  - intros q Hq. rewrite map_app, in_app_iff. simpl.
    apply in_app_iff in Hq as [Hq | [<- | []]]; auto.
Qed.

Lemma list_prod_In {A B : Type} (l : list A) (l' : list B) (r : A * B) :
  In r (list_prod l l') <-> In (fst r) l /\ In (snd r) l'.
Proof. destruct r. apply in_prod_iff. Qed.

Lemma follow_wf (action : FollowAction) (g : Graph) :
  wf g -> wf (snd (follow live action g)).
Proof.
  intros Hwf. rewrite follow_live. cbv zeta.
  set (rows := list_prod _ _).
  set (ends := fun r : User * User => (u_node (fst r), u_node (snd r))).
  assert (Hg : wf (set_FOLLOWS (snd (merge_rows ends rows (FOLLOWS g))) g)).
  { apply wf_set_FOLLOWS; [assumption | |].
    - apply merge_rows_NoDup, (wf_follows g Hwf).
    - intros e He. apply merge_rows_In in He as [He | [r [Hr <-]]];
        [now apply (wf_follows_ends g Hwf) |].
      apply list_prod_In in Hr as [Ha Hb].
      apply match_user_In in Ha as [Ha _]. apply match_user_In in Hb as [Hb _].
      simpl. split; now apply in_map. }
  destruct (map follow_row _); assumption.
Qed.

Lemma like_post_wf (post_id : string) (payload : LikeAction) (g : Graph) :
  wf g -> wf (snd (like_post live post_id payload g)).
Proof.
  intros Hwf. rewrite like_post_live. cbv zeta.
  set (rows := list_prod _ _).
  set (ends := fun r : User * Post => (u_node (fst r), p_node (snd r))).
  assert (Hg : wf (set_LIKED (snd (merge_rows ends rows (LIKED g))) g)).
  { apply wf_set_LIKED; [assumption | |].
    - apply merge_rows_NoDup, (wf_liked g Hwf).
    - intros e He. apply merge_rows_In in He as [He | [r [Hr <-]]];
        [now apply (wf_liked_ends g Hwf) |].
      apply list_prod_In in Hr as [Ha Hb].
      apply match_user_In in Ha as [Ha _]. apply match_post_In in Hb as [Hb _].
      simpl. split; now apply in_map. }
  destruct (map like_row _); assumption.
Qed.

Lemma unfollow_wf (action : FollowAction) (g : Graph) :
  wf g -> wf (snd (unfollow live action g)).
Proof.
  intros Hwf. rewrite unfollow_live. simpl.
  apply wf_set_FOLLOWS; [assumption | |].
  - apply NoDup_filter, (wf_follows g Hwf).
  - intros e He. apply filter_In in He as [He _].
    now apply (wf_follows_ends g Hwf).
Qed.

Lemma existsb_post_id (g : Graph) (k : string) :
  existsb (fun p => p_id p =? k) (posts g) = true <-> post_exists g k.
Proof.
  rewrite existsb_exists. unfold post_exists.
  split; intros [p [Hin H]]; exists p; split; auto;
    now apply String.eqb_eq.
Qed.

Lemma create_posts_wf (rows : list User) (id c t : string) :
  forall g recs g',
    wf g -> (forall a, In a rows -> In a (users g)) ->
    create_posts rows id c t g = inr (recs, g') -> wf g'.
Proof.
  induction rows as [| a rest IH]; simpl; intros g recs g' Hwf Hrows H.
  - inversion H. now subst.
  - destruct (unique_post_id g && existsb _ (posts g)) eqn:Hdup;
      [discriminate |].
    rewrite (wf_unique_post_id g Hwf) in Hdup. simpl in Hdup.
    destruct (create_posts rest id c t _) as [e | [recs2 g2]] eqn:Hc;
      [discriminate |].
    inversion H. subst. eapply IH; [| | exact Hc].
    + apply wf_add_post; [assumption | apply Hrows; now left | | reflexivity].
      simpl. intros Hex. apply existsb_post_id in Hex. congruence.
    + intros b Hb. simpl. apply Hrows. now right.
Qed.

Lemma create_post_wf (post_id created_at : string) (payload : PostCreate)
      (g : Graph) :
  wf g -> wf (snd (create_post live post_id created_at payload g)).
Proof.
  intros Hwf. unfold create_post. rewrite execute_write_live. simpl.
  unfold run_create_post.
  destruct (create_posts _ _ _ _ g) as [e | [recs g']] eqn:Hc;
    [assumption |].
  assert (Hg : wf g').
  { eapply create_posts_wf; [exact Hwf | | exact Hc].
    intros a Ha. now apply match_user_In in Ha. }
  destruct (truthy _); assumption.
Qed.

Lemma create_user_wf (user_id created_at : string) (payload : UserCreate)
      (g : Graph) :
  wf g -> wf (snd (create_user live user_id created_at payload g)).
Proof.
  intros Hwf. unfold create_user. rewrite execute_write_live. simpl.
  unfold run_create_user. rewrite (wf_unique_username g Hwf). simpl.
  destruct (existsb _ (users g)) eqn:Hdup; [assumption |]. simpl.
  apply wf_add_user; [assumption | | reflexivity].
  simpl. intros Hex. apply existsb_username in Hex. congruence.
Qed.

Lemma get_user_pure (k : string) (g : Graph) :
  snd (get_user live k g) = g.
Proof.
  unfold get_user. rewrite execute_read_live. simpl.
  now destruct (truthy _).
Qed.

Lemma get_post_pure (k : string) (g : Graph) :
  snd (get_post live k g) = g.
Proof.
  unfold get_post. rewrite execute_read_live. simpl.
  now destruct (truthy _).
Qed.

Lemma get_feed_pure (k : string) (limit : option Z) (g : Graph) :
  snd (get_feed live k limit g) = g.
Proof.
  unfold get_feed. rewrite execute_read_live. cbn [neo4j]. unfold run_feed.
  destruct (negb _); [reflexivity |]. now destruct (_ <? 0)%Z.
Qed.

(** ** The graphs the service can reach *)

Lemma wf_startup : wf (snd (startup neo4j neo4j_driver empty_graph)).
Proof.
  constructor; simpl; try reflexivity; try constructor;
    try (intros; contradiction).
Qed.

Lemma handle_wf (r : Request) (g : Graph) :
  wf g -> wf (snd (handle live r g)).
Proof.
  intros Hwf. destruct r; simpl.
  - now apply create_user_wf.
  - now rewrite get_user_pure.
  - now apply follow_wf.
  - now apply unfollow_wf.
  - now apply create_post_wf.
  - now rewrite get_post_pure.
  - now apply like_post_wf.
  - now rewrite get_feed_pure.
Qed.

Lemma reachable_wf (g : Graph) : reachable g -> wf g.
Proof.
  induction 1; [apply wf_startup | now apply handle_wf].
Qed.

Lemma serve_reachable (requests : list Request) : reachable (serve requests).
Proof.
  unfold serve.
  assert (H : forall g, reachable g ->
            reachable (fold_left (fun g r => snd (handle live r g))
                                 requests g)).
  { induction requests as [| r rs IH]; simpl; intros g Hg; [assumption |].
    apply IH. now constructor. }
  apply H. constructor.
Qed.

Lemma serve_wf (requests : list Request) : wf (serve requests).
Proof. apply reachable_wf, serve_reachable. Qed.

(** ** Follow *)

Lemma follow_existing (action : FollowAction) (g : Graph) (ua ub : User) :
  wf g -> In ua (users g) -> In ub (users g) ->
  u_username ua = follower_username action ->
  u_username ub = followee_username action ->
  follow live action g
  = (follow_ok (follower_username action) (followee_username action),
     set_FOLLOWS (fst (merge_rel (u_node ua, u_node ub) (FOLLOWS g))) g).
Proof.
  intros Hwf Ha Hb Hna Hnb. rewrite follow_live. cbv zeta.
  rewrite <- Hna, <- Hnb.
  rewrite (match_user_unique g ua Hwf Ha), (match_user_unique g ub Hwf Hb).
  simpl.
  pose proof (merge_rel_rows (u_node ua, u_node ub) (FOLLOWS g)) as Hk.
  destruct (merge_rel (u_node ua, u_node ub) (FOLLOWS g)) as [E k].
  simpl in *. destruct k as [| k]; [lia |]. simpl. reflexivity.
Qed.

(** C1. In a graph kept by the handlers, following an existing user from an
    existing user twice answers 201 with the pair both times and leaves
    exactly one FOLLOWS relationship from the follower to the followee; the
    second call changes nothing. *)
Theorem follow_twice (action : FollowAction) (g : Graph) (ua ub : User) :
  wf g -> In ua (users g) -> In ub (users g) ->
  u_username ua = follower_username action ->
  u_username ub = followee_username action ->
  let r1 := follow live action g in
  let r2 := follow live action (snd r1) in
  fst r1 = follow_ok (follower_username action) (followee_username action)
  /\ fst r2 = follow_ok (follower_username action) (followee_username action)
  /\ count_occ rel_dec (FOLLOWS (snd r2)) (u_node ua, u_node ub) = 1
  /\ snd r2 = snd r1.
Proof.
  intros Hwf Ha Hb Hna Hnb r1 r2.
  assert (Hwf1 : wf (snd r1)) by now apply follow_wf.
  assert (H1 : r1 = (follow_ok (follower_username action)
                               (followee_username action),
                     set_FOLLOWS (fst (merge_rel (u_node ua, u_node ub)
                                                 (FOLLOWS g))) g))
    by now apply follow_existing.
  assert (Hin : In (u_node ua, u_node ub) (FOLLOWS (snd r1))).
  { rewrite H1. simpl.
    destruct (merge_rel_cases (u_node ua, u_node ub) (FOLLOWS g))
      as [[_ ->] | [Hin ->]]; [| assumption].
    apply in_app_iff. right. now left. }
  assert (H2 : r2 = (follow_ok (follower_username action)
                               (followee_username action), snd r1)).
  { subst r2. rewrite (follow_existing action (snd r1) ua ub Hwf1);
      try assumption; try (rewrite H1; assumption).
    rewrite (merge_rel_old _ _ (wf_follows _ Hwf1) Hin). simpl.
    now rewrite set_FOLLOWS_same. }
  split; [now rewrite H1 |]. split; [now rewrite H2 |].
  split; [| now rewrite H2].
  rewrite H2. simpl.
  pose proof (proj1 (NoDup_count_occ rel_dec _) (wf_follows _ Hwf1)
                    (u_node ua, u_node ub)) as Hle.
  pose proof (proj1 (count_occ_In rel_dec _ _) Hin) as Hgt. lia.
Qed.

Lemma follow_twice_witness :
  let g := serve [POST_users "id-a" "t0" (mkUserCreate "alice" None None);
                  POST_users "id-b" "t1" (mkUserCreate "bob" None None)] in
  let action := mkFollowAction "bob" "alice" in
  let r1 := follow live action g in
  let r2 := follow live action (snd r1) in
  fst r1 = follow_ok "bob" "alice"
  /\ fst r2 = follow_ok "bob" "alice"
  /\ count_occ rel_dec (FOLLOWS (snd r2)) (1, 0) = 1
  /\ snd r2 = snd r1.
Proof.
  apply (follow_twice (mkFollowAction "bob" "alice")
           (serve [POST_users "id-a" "t0" (mkUserCreate "alice" None None);
                   POST_users "id-b" "t1" (mkUserCreate "bob" None None)])
           (mkUser 1 "id-b" "bob" None None "t1")
           (mkUser 0 "id-a" "alice" None None "t0")).
  - apply serve_wf.
  - simpl. auto.
  - simpl. auto.
  - reflexivity.
  - reflexivity.
Defined.

(** ** Relationships around one node *)

Lemma flat_map_if {A B : Type} (c : A -> bool) (f : A -> list B)
      (l : list A) :
  flat_map (fun x => if c x then f x else []) l = flat_map f (filter c l).
Proof.
  induction l as [| x l IH]; simpl; [reflexivity |].
  destruct (c x); simpl; now rewrite IH.
Qed.

Lemma user_at_node (g : Graph) (n : nat) :
  wf g -> In n (map u_node (users g)) ->
  exists u, In u (users g) /\ u_node u = n /\ user_at g n = [u].
Proof.
  intros Hwf Hn. apply in_map_iff in Hn as [u [<- Hu]].
  exists u. repeat split; [assumption |]. now apply user_at_unique.
Qed.

Lemma post_at_node (g : Graph) (n : nat) :
  wf g -> In n (map p_node (posts g)) ->
  exists p, In p (posts g) /\ p_node p = n /\ post_at g n = [p].
Proof.
  intros Hwf Hn. apply in_map_iff in Hn as [p [<- Hp]].
  exists p. repeat split; [assumption |]. now apply post_at_unique.
Qed.

(** Sources of relationships whose sources are all users: one user each. *)
Lemma sources_are_users (g : Graph) (L : list Rel) :
  wf g -> (forall e, In e L -> In (fst e) (map u_node (users g))) ->
  map u_node (flat_map (fun e => user_at g (fst e)) L) = map fst L.
Proof.
  intros Hwf. induction L as [| e L IH]; simpl; intros H; [reflexivity |].
  destruct (user_at_node g (fst e) Hwf (H e (or_introl eq_refl)))
    as [u [_ [Hn ->]]].
  simpl. rewrite Hn. f_equal. apply IH. intros; apply H; now right.
Qed.

Lemma targets_are_users (g : Graph) (L : list Rel) :
  wf g -> (forall e, In e L -> In (snd e) (map u_node (users g))) ->
  map u_node (flat_map (fun e => user_at g (snd e)) L) = map snd L.
Proof.
  intros Hwf. induction L as [| e L IH]; simpl; intros H; [reflexivity |].
  destruct (user_at_node g (snd e) Hwf (H e (or_introl eq_refl)))
    as [u [_ [Hn ->]]].
  simpl. rewrite Hn. f_equal. apply IH. intros; apply H; now right.
Qed.

Lemma targets_are_posts (g : Graph) (L : list Rel) :
  wf g -> (forall e, In e L -> In (snd e) (map p_node (posts g))) ->
  map p_node (flat_map (fun e => post_at g (snd e)) L) = map snd L.
Proof.
  intros Hwf. induction L as [| e L IH]; simpl; intros H; [reflexivity |].
  destruct (post_at_node g (snd e) Hwf (H e (or_introl eq_refl)))
    as [p [_ [Hn ->]]].
  simpl. rewrite Hn. f_equal. apply IH. intros; apply H; now right.
Qed.

Lemma NoDup_map_fst_same_snd (L : list Rel) (t : nat) :
  NoDup L -> (forall e, In e L -> snd e = t) -> NoDup (map fst L).
Proof.
  induction L as [| e L IH]; simpl; intros Hnd H; [constructor |].
  inversion Hnd as [| ? ? He Hnd']; subst. constructor.
  - intros Hin. apply in_map_iff in Hin as [e' [Hfst He']]. apply He.
    assert (e' = e); [| now subst].
    destruct e as [s1 t1], e' as [s2 t2]. simpl in *.
    pose proof (H (s1, t1) (or_introl eq_refl)) as H1.
    pose proof (H (s2, t2) (or_intror He')) as H2. simpl in *. congruence.
  - apply IH; [assumption |]. intros; apply H; now right.
Qed.

Lemma NoDup_map_snd_same_fst (L : list Rel) (s : nat) :
  NoDup L -> (forall e, In e L -> fst e = s) -> NoDup (map snd L).
Proof.
  induction L as [| e L IH]; simpl; intros Hnd H; [constructor |].
  inversion Hnd as [| ? ? He Hnd']; subst. constructor.
  - intros Hin. apply in_map_iff in Hin as [e' [Hsnd He']]. apply He.
    assert (e' = e); [| now subst].
    destruct e as [s1 t1], e' as [s2 t2]. simpl in *.
    pose proof (H (s1, t1) (or_introl eq_refl)) as H1.
    pose proof (H (s2, t2) (or_intror He')) as H2. simpl in *. congruence.
  - apply IH; [assumption |]. intros; apply H; now right.
Qed.

Lemma into_In (x : nat) (E : list Rel) (e : Rel) :
  In e (into x E) <-> In e E /\ snd e = x.
Proof. unfold into. rewrite filter_In, Nat.eqb_eq. tauto. Qed.

Lemma out_of_In (x : nat) (E : list Rel) (e : Rel) :
  In e (out_of x E) <-> In e E /\ fst e = x.
Proof. unfold out_of. rewrite filter_In, Nat.eqb_eq. tauto. Qed.

Lemma in_users_into (g : Graph) (E : list Rel) (x : nat) :
  in_users g E x = flat_map (fun e => user_at g (fst e)) (into x E).
Proof. apply flat_map_if. Qed.

Lemma out_users_out_of (g : Graph) (E : list Rel) (x : nat) :
  out_users g E x = flat_map (fun e => user_at g (snd e)) (out_of x E).
Proof. apply flat_map_if. Qed.

Lemma out_posts_out_of (g : Graph) (E : list Rel) (x : nat) :
  out_posts g E x = flat_map (fun e => post_at g (snd e)) (out_of x E).
Proof. apply flat_map_if. Qed.

(** The one author of a post. *)
Lemma author_unique (g : Graph) (p : Post) :
  wf g -> In p (posts g) ->
  exists a, In a (users g) /\ In (u_node a, p_node p) (POSTED g)
            /\ in_users g (POSTED g) (p_node p) = [a].
Proof.
  intros Hwf Hp.
  pose proof (wf_posted_all g Hwf p Hp) as Hin.
  apply in_map_iff in Hin as [e [He Hin]].
  destruct (wf_posted_ends g Hwf e Hin) as [Hs _].
  destruct (user_at_node g (fst e) Hwf Hs) as [a [Ha [Hna Hat]]].
  exists a. split; [assumption |]. split.
  - rewrite Hna, <- He. now destruct e.
  - rewrite in_users_into. unfold into.
    rewrite <- He.
    rewrite (filter_unique_key snd Nat.eqb Nat.eqb_eq (POSTED g) e
               (wf_posted_one g Hwf) Hin).
    simpl. now rewrite Hat, app_nil_r.
Qed.

(** ** Aggregation over a single group *)

Lemma nodup_const {A : Type} (dec : forall x y : A, {x = y} + {x <> y})
      (k : A) (l : list A) :
  l <> [] -> (forall x, In x l -> x = k) -> nodup dec l = [k].
Proof.
  induction l as [| x l IH]; intros Hne H; [congruence |].
  assert (x = k) by (apply H; now left). subst x. simpl.
  destruct l as [| y l]; [reflexivity |].
  assert (Hy : y = k) by (apply H; right; now left). subst y.
  destruct (in_dec dec k (k :: l)) as [_ | Hno];
    [| exfalso; apply Hno; now left].
  apply IH; [discriminate |]. intros; apply H; now right.
Qed.

Lemma non_null_optional {A : Type} (l : list A) : non_null (optional l) = l.
Proof.
  unfold non_null, optional. destruct l as [| x l]; [reflexivity |].
  induction (x :: l) as [| y l' IH]; simpl; [reflexivity |]. now rewrite IH.
Qed.

Lemma optional_not_nil {A : Type} (l : list A) : optional l <> [].
Proof. destruct l; simpl; discriminate. Qed.

Lemma optional_In_Some {A : Type} (l : list A) (x : A) :
  In (Some x) (optional l) <-> In x l.
Proof.
  destruct l as [| y l]; simpl.
  - split; [intros [H | []]; discriminate | tauto].
  - split.
    + intros [H | H]; [inversion H; auto |].
      apply in_map_iff in H as [z [Hz Hin]]. inversion Hz. subst. auto.
    + intros [-> | H]; [now left |]. right. now apply in_map.
Qed.

(** ** Likes *)

Lemma liked_sources_NoDup (g : Graph) (x : nat) :
  wf g -> NoDup (map fst (into x (LIKED g))).
Proof.
  intros Hwf. apply (NoDup_map_fst_same_snd _ x).
  - apply NoDup_filter, (wf_liked g Hwf).
  - intros e He. now apply into_In in He.
Qed.

Lemma likers_count (g : Graph) (p : Post) :
  wf g ->
  List.length (in_users g (LIKED g) (p_node p)) = List.length (likers g p).
Proof.
  intros Hwf. unfold likers.
  rewrite (nodup_fixed_point Nat.eq_dec (liked_sources_NoDup g _ Hwf)).
  rewrite in_users_into, <- (sources_are_users g _ Hwf).
  - now rewrite length_map.
  - intros e He. apply into_In in He as [He _].
    now apply (wf_liked_ends g Hwf).
Qed.

Lemma get_post_existing (g : Graph) (p : Post) :
  wf g -> In p (posts g) ->
  exists a, In a (users g) /\ In (u_node a, p_node p) (POSTED g)
            /\ get_post live (p_id p) g
               = (get_post_ok p a (List.length (likers g p)), g).
Proof.
  intros Hwf Hp.
  destruct (author_unique g p Hwf Hp) as [a [Ha [Hpa Hauthor]]].
  exists a. split; [assumption |]. split; [assumption |].
  unfold get_post. rewrite execute_read_live. simpl.
  unfold run_get_post, get_post_rows.
  rewrite (match_post_unique g p Hwf Hp). simpl. rewrite app_nil_r.
  rewrite Hauthor. simpl. rewrite app_nil_r.
  set (L := in_users g (LIKED g) (p_node p)).
  set (rows := map (fun u => (p, a, u)) (optional L)).
  set (k := (p_id p, u_username a, p_content p, p_created_at p)).
  assert (Hkey : forall r, In r rows -> post_key r = k).
  { intros r Hr. apply in_map_iff in Hr as [u [<- _]]. reflexivity. }
  assert (Hkeys : nodup post_key_dec (map post_key rows) = [k]).
  { apply nodup_const.
    - subst rows. pose proof (optional_not_nil L).
      destruct (optional L); [congruence | discriminate].
    - intros x Hx. apply in_map_iff in Hx as [r [<- Hr]]. now apply Hkey. }
  rewrite Hkeys. simpl.
  rewrite filter_all.
  2:{ intros r Hr. rewrite (Hkey r Hr).
      destruct (post_key_dec k k); [reflexivity | congruence]. }
  replace (map snd rows) with (optional L).
  2:{ subst rows. rewrite map_map. simpl. now rewrite map_id. }
  rewrite non_null_optional. subst L.
  rewrite (likers_count g p Hwf). reflexivity.
Qed.

Lemma like_post_existing (g : Graph) (u : User) (p : Post)
      (payload : LikeAction) :
  wf g -> In u (users g) -> In p (posts g) ->
  like_username payload = u_username u ->
  like_post live (p_id p) payload g
  = (like_ok (u_username u) (p_id p),
     set_LIKED (fst (merge_rel (u_node u, p_node p) (LIKED g))) g).
Proof.
  intros Hwf Hu Hp Hname. rewrite like_post_live. cbv zeta. rewrite Hname.
  rewrite (match_user_unique g u Hwf Hu), (match_post_unique g p Hwf Hp).
  simpl.
  pose proof (merge_rel_rows (u_node u, p_node p) (LIKED g)) as Hk.
  destruct (merge_rel (u_node u, p_node p) (LIKED g)) as [E k].
  simpl in *. destruct k as [| k]; [lia |]. simpl. reflexivity.
Qed.

(** C3. In a graph kept by the handlers, get-post of an existing post
    answers with a [likes] field equal to the number of distinct users that
    have a LIKED relationship to the post.  When a user likes the post
    twice, both calls succeed, one LIKED relationship joins the pair, the
    second call changes nothing, and get-post reports the same count after
    the second like as after the first. *)
Theorem likes_count_distinct (g : Graph) (u : User) (p : Post)
        (payload : LikeAction) :
  wf g -> In u (users g) -> In p (posts g) ->
  like_username payload = u_username u ->
  let r1 := like_post live (p_id p) payload g in
  let r2 := like_post live (p_id p) payload (snd r1) in
  (exists a, In (u_node a, p_node p) (POSTED g) /\
             fst (get_post live (p_id p) g)
             = get_post_ok p a (List.length (likers g p)))
  /\ fst r1 = like_ok (u_username u) (p_id p)
  /\ fst r2 = like_ok (u_username u) (p_id p)
  /\ count_occ rel_dec (LIKED (snd r2)) (u_node u, p_node p) = 1
  /\ snd r2 = snd r1
  /\ In (u_node u) (likers (snd r1) p)
  /\ (exists a, fst (get_post live (p_id p) (snd r1))
                = get_post_ok p a (List.length (likers (snd r1) p))
                /\ fst (get_post live (p_id p) (snd r2))
                   = get_post_ok p a (List.length (likers (snd r1) p))).
Proof.
  intros Hwf Hu Hp Hname r1 r2.
  assert (Hwf1 : wf (snd r1)) by now apply like_post_wf.
  assert (H1 : r1 = (like_ok (u_username u) (p_id p),
                     set_LIKED (fst (merge_rel (u_node u, p_node p)
                                               (LIKED g))) g))
    by now apply like_post_existing.
  assert (Hin : In (u_node u, p_node p) (LIKED (snd r1))).
  { rewrite H1. simpl.
    destruct (merge_rel_cases (u_node u, p_node p) (LIKED g))
      as [[_ ->] | [Hin ->]]; [| assumption].
    apply in_app_iff. right. now left. }
  assert (Hu1 : In u (users (snd r1))) by now rewrite H1.
  assert (Hp1 : In p (posts (snd r1))) by now rewrite H1.
  assert (H2 : r2 = (like_ok (u_username u) (p_id p), snd r1)).
  { subst r2. rewrite (like_post_existing (snd r1) u p payload Hwf1 Hu1 Hp1 Hname).
    rewrite (merge_rel_old _ _ (wf_liked _ Hwf1) Hin). simpl.
    now rewrite set_LIKED_same. }
  split.
  { destruct (get_post_existing g p Hwf Hp) as [a [_ [Hpa Hget]]].
    exists a. split; [assumption |]. now rewrite Hget. }
  split; [now rewrite H1 |]. split; [now rewrite H2 |].
  split.
  { rewrite H2. simpl.
    pose proof (proj1 (NoDup_count_occ rel_dec _) (wf_liked _ Hwf1)
                      (u_node u, p_node p)) as Hle.
    pose proof (proj1 (count_occ_In rel_dec _ _) Hin) as Hgt. lia. }
  split; [now rewrite H2 |].
  split.
  { unfold likers. apply nodup_In.
    apply (in_map fst) in Hin. simpl in Hin.
    apply in_map_iff. exists (u_node u, p_node p). split; [reflexivity |].
    apply into_In. split; [| reflexivity].
    apply in_map_iff in Hin as [e [_ _]].
    destruct (merge_rel_cases (u_node u, p_node p) (LIKED g))
      as [[_ Hm] | [Hold Hm]]; rewrite H1; simpl; rewrite Hm;
      [apply in_app_iff; right; now left | assumption]. }
  destruct (get_post_existing (snd r1) p Hwf1 Hp1) as [a [_ [_ Hget]]].
  exists a. rewrite H2. simpl. rewrite Hget. auto.
Qed.

(** ** ORDER BY created_at DESC *)

Lemma string_leb_iff (a b : string) :
  (a <=? b)%string = true <-> a = b \/ String_as_OT.lt a b.
Proof.
  unfold String.leb.
  destruct (String.compare a b) eqn:Hc.
  - apply String_as_OT.cmp_eq in Hc. tauto.
  - apply String_as_OT.cmp_lt in Hc. tauto.
  - split; [discriminate |]. intros [H | H].
    + apply String_as_OT.cmp_eq in H. unfold String_as_OT.cmp in H.
      congruence.
    + apply String_as_OT.cmp_lt in H. unfold String_as_OT.cmp in H.
      congruence.
Qed.

Lemma string_leb_trans (a b c : string) :
  (a <=? b)%string = true -> (b <=? c)%string = true ->
  (a <=? c)%string = true.
Proof.
  rewrite !string_leb_iff. intros [-> | Hab] [-> | Hbc]; auto.
  right. eapply String_as_OT.lt_trans; eassumption.
Qed.

Lemma newer_trans (x y z : Post * User) : newer x y -> newer y z -> newer x z.
Proof.
  unfold newer. intros Hxy Hyz.
  eapply string_leb_trans; eassumption.
Qed.

Lemma string_leb_refl (a : string) : (a <=? a)%string = true.
Proof. apply string_leb_iff. now left. Qed.

Lemma string_compare_Gt (a b : string) :
  (a ?= b)%string = Gt -> (b <=? a)%string = true.
Proof.
  intros H. unfold String.leb. rewrite String.compare_antisym, H.
  reflexivity.
Qed.

Lemma string_compare_Lt (a b : string) :
  (a ?= b)%string = Lt -> (a <=? b)%string = true.
Proof. intros H. unfold String.leb. now rewrite H. Qed.

(** Whatever the order of ties, a row put before another is no older. *)
Lemma goes_before_newer (tie : Tie) (x y : Post * User) :
  goes_before tie x y = true -> newer x y.
Proof.
  unfold goes_before, newer.
  destruct (p_created_at (fst x) ?= p_created_at (fst y))%string eqn:Hc;
    intros H.
  - apply String.compare_eq_iff in Hc. rewrite Hc. apply string_leb_refl.
  - discriminate.
  - now apply string_compare_Gt.
Qed.

Lemma goes_after_newer (tie : Tie) (x y : Post * User) :
  goes_before tie x y = false -> newer y x.
Proof.
  unfold goes_before, newer.
  destruct (p_created_at (fst x) ?= p_created_at (fst y))%string eqn:Hc;
    intros H.
  - apply String.compare_eq_iff in Hc. rewrite Hc. apply string_leb_refl.
  - now apply string_compare_Lt.
  - discriminate.
Qed.

Lemma insert_desc_perm (tie : Tie) (x : Post * User)
      (l : list (Post * User)) :
  Permutation (insert_desc tie x l) (x :: l).
Proof.
  induction l as [| y l IH]; simpl; [reflexivity |].
  destruct (goes_before tie x y); [reflexivity |].
  rewrite IH. apply perm_swap.
Qed.

Lemma order_by_perm (tie : Tie) (l : list (Post * User)) :
  Permutation (order_by_created_at_desc tie l) l.
Proof.
  induction l as [| x l IH]; simpl; [reflexivity |].
  rewrite insert_desc_perm. now constructor.
Qed.

Lemma insert_desc_sorted (tie : Tie) (x : Post * User)
      (l : list (Post * User)) :
  StronglySorted newer l -> StronglySorted newer (insert_desc tie x l).
Proof.
  induction l as [| y l IH]; simpl; intros Hs.
  - repeat constructor.
  - apply StronglySorted_inv in Hs as [Hs Hy].
    destruct (goes_before tie x y) eqn:Hxy.
    + apply goes_before_newer in Hxy.
      constructor; [now constructor |]. constructor; [exact Hxy |].
      rewrite Forall_forall in *. intros z Hz.
      eapply newer_trans; [exact Hxy | now apply Hy].
    + apply goes_after_newer in Hxy.
      constructor; [now apply IH |].
      rewrite Forall_forall in *. intros z Hz.
      apply (Permutation_in _ (insert_desc_perm tie x l)) in Hz
        as [<- | Hz]; [assumption | now apply Hy].
Qed.

Lemma order_by_sorted (tie : Tie) (l : list (Post * User)) :
  StronglySorted newer (order_by_created_at_desc tie l).
Proof.
  induction l as [| x l IH]; simpl; [constructor |].
  now apply insert_desc_sorted.
Qed.

Lemma sorted_app_inv {A : Type} (R : A -> A -> Prop) (l1 l2 : list A) :
  StronglySorted R (l1 ++ l2) ->
  forall x y, In x l1 -> In y l2 -> R x y.
Proof.
  induction l1 as [| a l1 IH]; simpl; intros Hs x y Hx Hy; [contradiction |].
  apply StronglySorted_inv in Hs as [Hs Ha].
  destruct Hx as [<- | Hx].
  - rewrite Forall_forall in Ha. apply Ha, in_app_iff. now right.
  - now apply IH.
Qed.

Lemma firstn_In {A : Type} (n : nat) (l : list A) (x : A) :
  In x (firstn n l) -> In x l.
Proof.
  intros H. rewrite <- (firstn_skipn n l). apply in_app_iff. now left.
Qed.

Lemma firstn_sorted {A : Type} (R : A -> A -> Prop) (n : nat) (l : list A) :
  StronglySorted R l -> StronglySorted R (firstn n l).
Proof.
  revert l. induction n as [| n IH]; intros l Hs; simpl; [constructor |].
  destruct l as [| x l]; [constructor |].
  apply StronglySorted_inv in Hs as [Hs Hx].
  constructor; [now apply IH |].
  rewrite Forall_forall in *. intros y Hy. apply Hx.
  now apply firstn_In in Hy.
Qed.

(** ** Feed: the paths of the MATCH *)

Lemma out_users_In (g : Graph) (E : list Rel) (x : nat) (u : User) :
  In u (out_users g E x) <-> In u (users g) /\ In (x, u_node u) E.
Proof.
  unfold out_users. rewrite in_flat_map. split.
  - intros [e [He H]]. destruct (fst e =? x)%nat eqn:Hx; [| contradiction].
    apply Nat.eqb_eq in Hx. apply user_at_In in H as [Hu Hn].
    split; [assumption |]. rewrite Hn, <- Hx. now destruct e.
  - intros [Hu He]. exists (x, u_node u). split; [assumption |]. simpl.
    rewrite Nat.eqb_refl. now apply user_at_In.
Qed.

Lemma out_posts_In (g : Graph) (E : list Rel) (x : nat) (p : Post) :
  In p (out_posts g E x) <-> In p (posts g) /\ In (x, p_node p) E.
Proof.
  unfold out_posts. rewrite in_flat_map. split.
  - intros [e [He H]]. destruct (fst e =? x)%nat eqn:Hx; [| contradiction].
    apply Nat.eqb_eq in Hx. apply post_at_In in H as [Hp Hn].
    split; [assumption |]. rewrite Hn, <- Hx. now destruct e.
  - intros [Hp He]. exists (x, p_node p). split; [assumption |]. simpl.
    rewrite Nat.eqb_refl. now apply post_at_In.
Qed.

Lemma in_users_In (g : Graph) (E : list Rel) (x : nat) (u : User) :
  In u (in_users g E x) <-> In u (users g) /\ In (u_node u, x) E.
Proof.
  unfold in_users. rewrite in_flat_map. split.
  - intros [e [He H]]. destruct (snd e =? x)%nat eqn:Hx; [| contradiction].
    apply Nat.eqb_eq in Hx. apply user_at_In in H as [Hu Hn].
    split; [assumption |]. rewrite Hn, <- Hx. now destruct e.
  - intros [Hu He]. exists (u_node u, x). split; [assumption |]. simpl.
    rewrite Nat.eqb_refl. now apply user_at_In.
Qed.

Lemma feed_paths_In (g : Graph) (k : string) (p : Post) (other : User) :
  In (p, other) (feed_paths g k) <-> feed_path g k p other.
Proof.
  unfold feed_paths, feed_path. rewrite in_flat_map. split.
  - intros [me [Hme H]]. apply match_user_In in Hme as [Hme Hk].
    apply in_flat_map in H as [o [Ho H]].
    apply out_users_In in Ho as [Ho Hf].
    apply in_map_iff in H as [q [Hq H]]. inversion Hq. subst.
    apply out_posts_In in H as [Hp He]. exists me. tauto.
  - intros [me [Hme [Hk [Ho [Hf [Hp He]]]]]]. exists me.
    split; [now apply match_user_In |].
    apply in_flat_map. exists other. split; [now apply out_users_In |].
    apply in_map_iff. exists p. split; [reflexivity |].
    now apply out_posts_In.
Qed.

(** ** Feed: the posts of the followees *)

Lemma rel_in_true (e : Rel) (E : list Rel) : rel_in e E = true <-> In e E.
Proof.
  unfold rel_in. destruct (in_dec rel_dec e E); split; auto; discriminate.
Qed.

Lemma followee_posts_In (g : Graph) (k : string) (p : Post) :
  In p (followee_posts g k) <-> exists other, feed_path g k p other.
Proof.
  unfold followee_posts, by_followee, feed_path.
  rewrite filter_In, existsb_exists. split.
  - intros [Hp [me [Hme H]]]. apply andb_true_iff in H as [Hk H].
    apply String.eqb_eq in Hk.
    apply existsb_exists in H as [other [Ho H]].
    apply andb_true_iff in H as [Hf He].
    apply rel_in_true in Hf. apply rel_in_true in He.
    exists other, me. tauto.
  - intros [other [me [Hme [Hk [Ho [Hf [Hp He]]]]]]].
    split; [assumption |]. exists me. split; [assumption |].
    apply andb_true_iff. split; [now apply String.eqb_eq |].
    apply existsb_exists. exists other. split; [assumption |].
    apply andb_true_iff. split; now apply rel_in_true.
Qed.

Lemma NoDup_map_inj {A B : Type} (f : A -> B) (l : list A) (x y : A) :
  NoDup (map f l) -> In x l -> In y l -> f x = f y -> x = y.
Proof.
  induction l as [| z l IH]; simpl; intros Hnd Hx Hy Hf; [contradiction |].
  inversion Hnd as [| ? ? Hz Hnd']; subst.
  destruct Hx as [-> | Hx], Hy as [-> | Hy]; auto.
  - exfalso. apply Hz. rewrite Hf. now apply in_map.
  - exfalso. apply Hz. rewrite <- Hf. now apply in_map.
Qed.

Lemma NoDup_map_filter {A B : Type} (f : A -> B) (c : A -> bool)
      (l : list A) :
  NoDup (map f l) -> NoDup (map f (filter c l)).
Proof.
  induction l as [| z l IH]; simpl; intros Hnd; [constructor |].
  inversion Hnd as [| ? ? Hz Hnd']; subst.
  destruct (c z); simpl; [| now apply IH].
  constructor; [| now apply IH].
  intros Hin. apply Hz. apply in_map_iff in Hin as [w [Hw Hin]].
  apply filter_In in Hin as [Hin _]. rewrite <- Hw. now apply in_map.
Qed.

Lemma NoDup_flat_map {A B : Type} (f : A -> list B) (l : list A) :
  NoDup l -> (forall x, In x l -> NoDup (f x)) ->
  (forall x y b, In x l -> In y l -> In b (f x) -> In b (f y) -> x = y) ->
  NoDup (flat_map f l).
Proof.
  induction l as [| z l IH]; simpl; intros Hnd Hf Hdis; [constructor |].
  inversion Hnd as [| ? ? Hz Hnd']; subst.
  apply NoDup_app.
  - apply Hf. now left.
  - apply IH; [assumption | intros; apply Hf; now right |].
    intros x y b Hx Hy. apply Hdis; now right.
  - intros b Hb Hin. apply in_flat_map in Hin as [w [Hw Hbw]].
    assert (z = w) by (apply (Hdis z w b); auto). subst. contradiction.
Qed.

Lemma map_fst_tagged {A B : Type} (f : A -> list B) (l : list A) :
  map fst (flat_map (fun o => map (fun p => (p, o)) (f o)) l) = flat_map f l.
Proof.
  induction l as [| o l IH]; simpl; [reflexivity |].
  rewrite map_app, IH, map_map. simpl. now rewrite map_id.
Qed.

Lemma match_user_cases (g : Graph) (k : string) :
  wf g ->
  match_user g k = []
  \/ exists me, In me (users g) /\ u_username me = k /\ match_user g k = [me].
Proof.
  intros Hwf. destruct (match_user g k) as [| me rest] eqn:Hm; [now left |].
  right. exists me.
  assert (Hme : In me (match_user g k)) by (rewrite Hm; now left).
  apply match_user_In in Hme as [Hme Hk]. repeat split; try assumption.
  rewrite <- Hm, <- Hk. now apply match_user_unique.
Qed.

Lemma followees_NoDup (g : Graph) (x : nat) :
  wf g -> NoDup (out_users g (FOLLOWS g) x).
Proof.
  intros Hwf. apply (@NoDup_map_inv _ _ u_node).
  rewrite out_users_out_of, (targets_are_users g _ Hwf).
  - apply (NoDup_map_snd_same_fst _ x).
    + apply NoDup_filter, (wf_follows g Hwf).
    + intros e He. now apply out_of_In in He.
  - intros e He. apply out_of_In in He as [He _].
    now apply (wf_follows_ends g Hwf).
Qed.

Lemma authored_NoDup (g : Graph) (x : nat) :
  wf g -> NoDup (out_posts g (POSTED g) x).
Proof.
  intros Hwf. apply (@NoDup_map_inv _ _ p_node).
  rewrite out_posts_out_of, (targets_are_posts g _ Hwf).
  - apply NoDup_map_filter, (wf_posted_one g Hwf).
  - intros e He. apply out_of_In in He as [He _].
    now apply (wf_posted_ends g Hwf).
Qed.

Lemma feed_paths_posts_NoDup (g : Graph) (k : string) :
  wf g -> NoDup (map fst (feed_paths g k)).
Proof.
  intros Hwf. unfold feed_paths.
  destruct (match_user_cases g k Hwf) as [-> | [me [Hme [Hk ->]]]];
    [constructor |].
  simpl. rewrite app_nil_r, map_fst_tagged.
  apply NoDup_flat_map.
  - now apply followees_NoDup.
  - intros o _. now apply authored_NoDup.
  - intros x y p Hx Hy Hpx Hpy.
    apply out_users_In in Hx as [Hx _]. apply out_users_In in Hy as [Hy _].
    apply out_posts_In in Hpx as [_ Hpx]. apply out_posts_In in Hpy as [_ Hpy].
    pose proof (NoDup_map_inj snd (POSTED g) _ _ (wf_posted_one g Hwf)
                              Hpx Hpy eq_refl) as Heq.
    inversion Heq as [Hn].
    exact (NoDup_map_inj u_node (users g) x y (wf_user_nodes g Hwf)
                         Hx Hy Hn).
Qed.

(** In a graph kept by the handlers the MATCH of the feed finds every post
    of a followee once. *)
Lemma feed_paths_followee_posts (g : Graph) (k : string) :
  wf g -> Permutation (map fst (feed_paths g k)) (followee_posts g k).
Proof.
  intros Hwf. apply NoDup_Permutation.
  - now apply feed_paths_posts_NoDup.
  - apply NoDup_filter. apply (@NoDup_map_inv _ _ p_node).
    apply (wf_post_nodes g Hwf).
  - intros p. rewrite followee_posts_In, in_map_iff. split.
    + intros [[q o] [Hq Hin]]. simpl in Hq. subst q. exists o.
      now apply feed_paths_In.
    + intros [o Ho]. exists (p, o). split; [reflexivity |].
      now apply feed_paths_In.
Qed.

(** C2, as stated, fails: not every numeric limit is answered.  With a
    followee who has posted, a limit of -1 is rejected by the store and a
    limit of 2^63 by the driver, and the request ends with an uncaught
    error instead of a sequence of posts. *)
Lemma feed_rejects_limit :
  followee_posts bob_follows_alice "bob" = [hello]
  /\ get_feed live "bob" (Some (-1)%Z) bob_follows_alice
     = (Unhandled ArgumentError, bob_follows_alice)
  /\ get_feed live "bob" (Some (2 ^ 63)%Z) bob_follows_alice
     = (Unhandled OverflowError, bob_follows_alice).
Proof. repeat split. Qed.

(** C2, amended. For every username, every limit from 0 up to 2^63 - 1
    (20 when the query parameter is absent) and every order of ties, in a
    graph kept by the handlers the feed answers 200 with one record (id,
    author_username, content, created_at) per selected post, where: the
    number of records is the smaller of the limit and the number of posts
    of the followees, so at most [limit] and exactly [limit] when there are
    that many; every record is for a post reached by one FOLLOWS hop from
    the requester and one POSTED hop from that author; the records are in
    descending order of [created_at]; no post is listed twice; and every
    followee post left out is no newer than any listed one. *)
Theorem feed_contents (tie : Tie) (g : Graph) (k : string)
        (limit : option Z) :
  wf g -> accepted_limit (limit_or_default limit) ->
  limit_or_default None = 20%Z
  /\ NoDup (followee_posts g k)
  /\ (forall p, In p (followee_posts g k)
                <-> exists other, feed_path g k p other)
  /\ exists selected : list (Post * User),
      get_feed (live_with tie) k limit g
      = (Returned 200 (JArr (map feed_entry selected)), g)
      /\ List.length (map feed_entry selected)
         = Nat.min (Z.to_nat (limit_or_default limit))
                   (List.length (followee_posts g k))
      /\ (forall p other, In (p, other) selected -> feed_path g k p other)
      /\ StronglySorted newer selected
      /\ NoDup (map fst selected)
      /\ (forall q o, feed_path g k q o -> ~ In q (map fst selected) ->
                      forall x, In x selected -> newer x (q, o)).
Proof.
  intros Hwf Hl. split; [reflexivity |].
  split.
  { apply NoDup_filter. apply (@NoDup_map_inv _ _ p_node).
    apply (wf_post_nodes g Hwf). }
  split; [intros p; apply followee_posts_In |].
  set (n := Z.to_nat (limit_or_default limit)).
  set (sorted := order_by_created_at_desc tie (feed_paths g k)).
  assert (Hperm : Permutation sorted (feed_paths g k))
    by apply order_by_perm.
  assert (Hlen : List.length sorted = List.length (followee_posts g k)).
  { rewrite (Permutation_length Hperm).
    rewrite <- (Permutation_length (feed_paths_followee_posts g k Hwf)).
    now rewrite length_map. }
  assert (Hsorted : StronglySorted newer sorted) by apply order_by_sorted.
  exists (firstn n sorted).
  split; [now apply get_feed_live |].
  split; [now rewrite length_map, length_firstn, Hlen |].
  split.
  { intros p other Hin. apply firstn_In in Hin.
    apply (Permutation_in _ Hperm) in Hin. now apply feed_paths_In. }
  split; [now apply firstn_sorted |].
  split.
  { assert (Hnd : NoDup (map fst sorted)).
    { apply (Permutation_NoDup (l := map fst (feed_paths g k)));
        [apply Permutation_map; now symmetry
        | now apply feed_paths_posts_NoDup]. }
    rewrite <- (firstn_skipn n sorted), map_app in Hnd.
    now apply NoDup_app_remove_r in Hnd. }
  intros q o Hpath Hout x Hx.
  apply feed_paths_In in Hpath.
  apply (Permutation_in _ (Permutation_sym Hperm)) in Hpath.
  rewrite <- (firstn_skipn n sorted) in Hpath, Hsorted.
  apply in_app_iff in Hpath as [Hin | Hin].
  - exfalso. apply Hout. now apply (in_map fst) in Hin.
  - exact (sorted_app_inv newer _ _ Hsorted x (q, o) Hx Hin).
Qed.

(** ** get-user: the three counts *)

Lemma count_distinct_ext (l l' : list nat) :
  (forall x, In x l <-> In x l') -> count_distinct l = count_distinct l'.
Proof.
  intros H. unfold count_distinct. apply Permutation_length.
  apply NoDup_Permutation; try apply NoDup_nodup.
  intros x. rewrite !nodup_In. apply H.
Qed.

Lemma count_distinct_NoDup (l : list nat) :
  NoDup l -> count_distinct l = List.length l.
Proof.
  intros H. unfold count_distinct. now rewrite nodup_fixed_point.
Qed.

Lemma non_null_In {A : Type} (l : list (option A)) (x : A) :
  In x (non_null l) <-> In (Some x) l.
Proof.
  unfold non_null. rewrite in_flat_map. split.
  - intros [[y |] [Hy H]]; [| contradiction].
    destruct H as [-> | []]. assumption.
  - intros H. exists (Some x). split; [assumption | now left].
Qed.

Section Product.
Context {F G P : Type} (u : User).
Variables (fs : list F) (gs : list G) (ps : list P).

Lemma product_In (r : User * F * G * P) :
  In r (product u fs gs ps) <->
  exists f h p, r = (u, f, h, p) /\ In f fs /\ In h gs /\ In p ps.
Proof.
  unfold product. rewrite in_flat_map. split.
  - intros [f [Hf H]]. apply in_flat_map in H as [h [Hh H]].
    apply in_map_iff in H as [p [<- Hp]]. exists f, h, p. auto.
  - intros [f [h [p [-> [Hf [Hh Hp]]]]]]. exists f. split; [assumption |].
    apply in_flat_map. exists h. split; [assumption |].
    apply in_map_iff. exists p. auto.
Qed.

Hypothesis fs_some : fs <> [].
Hypothesis gs_some : gs <> [].
Hypothesis ps_some : ps <> [].

Lemma some_elt {A : Type} (l : list A) : l <> [] -> exists x, In x l.
Proof. destruct l as [| x l]; [congruence |]. exists x. now left. Qed.

Lemma product_not_nil : product u fs gs ps <> [].
Proof.
  destruct (some_elt fs fs_some) as [f Hf].
  destruct (some_elt gs gs_some) as [h Hh].
  destruct (some_elt ps ps_some) as [p Hp].
  assert (H : In (u, f, h, p) (product u fs gs ps)).
  { apply product_In. exists f, h, p. auto. }
  intros Hnil. now rewrite Hnil in H.
Qed.

Lemma product_col_f (x : F) :
  In x (map (fun r => snd (fst (fst r))) (product u fs gs ps)) <-> In x fs.
Proof.
  rewrite in_map_iff. split.
  - intros [r [<- Hr]]. apply product_In in Hr as [f [h [p [-> [Hf _]]]]].
    assumption.
  - intros Hx. destruct (some_elt gs gs_some) as [h Hh].
    destruct (some_elt ps ps_some) as [p Hp].
    exists (u, x, h, p). split; [reflexivity |].
    apply product_In. exists x, h, p. auto.
Qed.

Lemma product_col_g (x : G) :
  In x (map (fun r => snd (fst r)) (product u fs gs ps)) <-> In x gs.
Proof.
  rewrite in_map_iff. split.
  - intros [r [<- Hr]].
    apply product_In in Hr as [f [h [p [-> [_ [Hh _]]]]]]. assumption.
  - intros Hx. destruct (some_elt fs fs_some) as [f Hf].
    destruct (some_elt ps ps_some) as [p Hp].
    exists (u, f, x, p). split; [reflexivity |].
    apply product_In. exists f, x, p. auto.
Qed.

Lemma product_col_p (x : P) :
  In x (map snd (product u fs gs ps)) <-> In x ps.
Proof.
  rewrite in_map_iff. split.
  - intros [r [<- Hr]].
    apply product_In in Hr as [f [h [p [-> [_ [_ Hp]]]]]]. assumption.
  - intros Hx. destruct (some_elt fs fs_some) as [f Hf].
    destruct (some_elt gs gs_some) as [h Hh].
    exists (u, f, h, x). split; [reflexivity |].
    apply product_In. exists f, h, x. auto.
Qed.
End Product.

Lemma following_nodes (g : Graph) (u : User) :
  wf g -> map u_node (out_users g (FOLLOWS g) (u_node u)) = following g u.
Proof.
  intros Hwf. rewrite out_users_out_of. apply targets_are_users; [assumption |].
  intros e He. apply out_of_In in He as [He _].
  now apply (wf_follows_ends g Hwf).
Qed.

Lemma followers_nodes (g : Graph) (u : User) :
  wf g -> map u_node (in_users g (FOLLOWS g) (u_node u)) = followers g u.
Proof.
  intros Hwf. rewrite in_users_into. apply sources_are_users; [assumption |].
  intros e He. apply into_In in He as [He _].
  now apply (wf_follows_ends g Hwf).
Qed.

Lemma authored_nodes (g : Graph) (u : User) :
  wf g -> map p_node (out_posts g (POSTED g) (u_node u)) = authored g u.
Proof.
  intros Hwf. rewrite out_posts_out_of. apply targets_are_posts; [assumption |].
  intros e He. apply out_of_In in He as [He _].
  now apply (wf_posted_ends g Hwf).
Qed.

Lemma following_NoDup (g : Graph) (u : User) : wf g -> NoDup (following g u).
Proof.
  intros Hwf. apply (NoDup_map_snd_same_fst _ (u_node u)).
  - apply NoDup_filter, (wf_follows g Hwf).
  - intros e He. now apply out_of_In in He.
Qed.

Lemma followers_NoDup (g : Graph) (u : User) : wf g -> NoDup (followers g u).
Proof.
  intros Hwf. apply (NoDup_map_fst_same_snd _ (u_node u)).
  - apply NoDup_filter, (wf_follows g Hwf).
  - intros e He. now apply into_In in He.
Qed.

Lemma authored_posts_NoDup (g : Graph) (u : User) : wf g -> NoDup (authored g u).
Proof.
  intros Hwf. apply NoDup_map_filter, (wf_posted_one g Hwf).
Qed.

Lemma distinct_column {A B : Type} (key : B -> nat) (col : A -> option B)
      (rows : list A) (matches : list B) :
  (forall x, In x (map col rows) <-> In x (optional matches)) ->
  count_distinct (map key (non_null (map col rows)))
  = count_distinct (map key matches).
Proof.
  intros H. apply count_distinct_ext. intros n. rewrite !in_map_iff.
  split; intros [b [Hb Hin]]; exists b; split; try assumption.
  - apply optional_In_Some, H. now apply non_null_In.
  - apply non_null_In, H. now apply optional_In_Some.
Qed.

Lemma run_get_user_existing (g : Graph) (u : User) :
  wf g -> In u (users g) ->
  run_get_user (u_username u) g
  = inr ([get_user_row (user_key u)
            (product u (optional (out_users g (FOLLOWS g) (u_node u)))
                       (optional (in_users g (FOLLOWS g) (u_node u)))
                       (optional (out_posts g (POSTED g) (u_node u))))], g).
Proof.
  intros Hwf Hu. unfold run_get_user.
  assert (Hrows : get_user_rows g (u_username u)
                  = product u (optional (out_users g (FOLLOWS g) (u_node u)))
                              (optional (in_users g (FOLLOWS g) (u_node u)))
                              (optional (out_posts g (POSTED g) (u_node u)))).
  { unfold get_user_rows. rewrite (match_user_unique g u Hwf Hu). simpl.
    now rewrite app_nil_r. }
  rewrite Hrows. set (rows := product u _ _ _).
  assert (Hkey : forall r, In r rows -> user_key (um_user r) = user_key u).
  { intros r Hr. apply product_In in Hr as [f [h [p [-> _]]]]. reflexivity. }
  assert (Hkeys : nodup user_key_dec (map (fun r => user_key (um_user r)) rows)
                  = [user_key u]).
  { apply nodup_const.
    - intros Hnil. apply map_eq_nil in Hnil. revert Hnil.
      apply product_not_nil; apply optional_not_nil.
    - intros x Hx. apply in_map_iff in Hx as [r [<- Hr]]. now apply Hkey. }
  rewrite Hkeys. cbn [map].
  rewrite filter_all; [reflexivity |].
  intros r Hr. rewrite (Hkey r Hr).
  destruct (user_key_dec (user_key u) (user_key u)); [reflexivity | congruence].
Qed.

Lemma get_user_existing (g : Graph) (u : User) :
  wf g -> In u (users g) ->
  get_user live (u_username u) g
  = (get_user_ok u (List.length (following g u))
                   (List.length (followers g u))
                   (List.length (authored g u)), g).
Proof.
  intros Hwf Hu. unfold get_user. rewrite execute_read_live.
  cbn [neo4j]. rewrite (run_get_user_existing g u Hwf Hu).
  unfold get_user_row, user_key. cbn [_single_or_none truthy json_of].
  unfold get_user_ok.
  rewrite (distinct_column u_node um_f _ (out_users g (FOLLOWS g) (u_node u))).
  2:{ intros x. apply product_col_f; apply optional_not_nil. }
  rewrite (distinct_column u_node um_g _ (in_users g (FOLLOWS g) (u_node u))).
  2:{ intros x. apply product_col_g; apply optional_not_nil. }
  rewrite (distinct_column p_node um_p _ (out_posts g (POSTED g) (u_node u))).
  2:{ intros x. apply product_col_p; apply optional_not_nil. }
  rewrite (following_nodes g u Hwf), (followers_nodes g u Hwf),
          (authored_nodes g u Hwf).
  rewrite (count_distinct_NoDup _ (following_NoDup g u Hwf)).
  rewrite (count_distinct_NoDup _ (followers_NoDup g u Hwf)).
  rewrite (count_distinct_NoDup _ (authored_posts_NoDup g u Hwf)).
  reflexivity.
Qed.

(** ** Following oneself *)

Lemma out_of_snoc (x : nat) (E : list Rel) (e : Rel) :
  fst e = x -> out_of x (E ++ [e]) = out_of x E ++ [e].
Proof.
  intros H. unfold out_of. rewrite filter_app. simpl.
  now rewrite H, Nat.eqb_refl.
Qed.

Lemma into_snoc (x : nat) (E : list Rel) (e : Rel) :
  snd e = x -> into x (E ++ [e]) = into x E ++ [e].
Proof.
  intros H. unfold into. rewrite filter_app. simpl.
  now rewrite H, Nat.eqb_refl.
Qed.

Lemma feed_lists_all (tie : Tie) (g : Graph) (k : string)
      (limit : option Z) (p : Post) (other : User) :
  wf g -> feed_path g k p other ->
  (Z.of_nat (List.length (followee_posts g k)) <= limit_or_default limit
   < 2 ^ 63)%Z ->
  exists items,
    fst (get_feed (live_with tie) k limit g) = Returned 200 (JArr items)
    /\ In (feed_entry (p, other)) items.
Proof.
  intros Hwf Hpath Hl.
  rewrite get_feed_live by (unfold accepted_limit; lia).
  simpl. eexists. split; [reflexivity |].
  apply in_map.
  pose proof (order_by_perm tie (feed_paths g k)) as Hperm.
  rewrite firstn_all2.
  - apply (Permutation_in _ (Permutation_sym Hperm)).
    now apply feed_paths_In.
  - rewrite (Permutation_length Hperm).
    rewrite <- (length_map fst).
    rewrite (Permutation_length (feed_paths_followee_posts g k Hwf)). lia.
Qed.

(** C10. follow accepts the same username as follower and followee: for an
    existing user the call answers 201 and merges a FOLLOWS relationship
    from the user to themself.  get-user then counts the user among their
    own followees and followers (each count one higher than before when the
    relationship is new), and every post of the user is matched by the feed
    of that user, and listed in it, whatever the order of ties, for every
    limit below 2^63 that is at least the number of posts of the user's
    followees. *)
Theorem self_follow (g : Graph) (u : User) (action : FollowAction) :
  wf g -> In u (users g) ->
  follower_username action = u_username u ->
  followee_username action = u_username u ->
  let r := follow live action g in
  let g' := snd r in
  fst r = follow_ok (u_username u) (u_username u)
  /\ In (u_node u, u_node u) (FOLLOWS g')
  /\ fst (get_user live (u_username u) g')
     = get_user_ok u (List.length (following g' u))
                     (List.length (followers g' u))
                     (List.length (authored g' u))
  /\ In (u_node u) (following g' u)
  /\ In (u_node u) (followers g' u)
  /\ (~ In (u_node u, u_node u) (FOLLOWS g) ->
      List.length (following g' u) = S (List.length (following g u))
      /\ List.length (followers g' u) = S (List.length (followers g u)))
  /\ (forall p, In p (posts g') -> In (u_node u, p_node p) (POSTED g') ->
        In (p, u) (feed_paths g' (u_username u))
        /\ forall tie limit,
            (Z.of_nat (List.length (followee_posts g' (u_username u)))
             <= limit_or_default limit < 2 ^ 63)%Z ->
            exists items,
              fst (get_feed (live_with tie) (u_username u) limit g')
              = Returned 200 (JArr items)
              /\ In (feed_entry (p, u)) items).
Proof.
  intros Hwf Hu Ha Hb r g'.
  assert (Hwf' : wf g') by now apply follow_wf.
  assert (Hr : r = (follow_ok (follower_username action)
                              (followee_username action),
                    set_FOLLOWS (fst (merge_rel (u_node u, u_node u)
                                                (FOLLOWS g))) g))
    by (apply follow_existing; auto).
  assert (Hg' : g' = set_FOLLOWS (fst (merge_rel (u_node u, u_node u)
                                                 (FOLLOWS g))) g)
    by (subst g'; now rewrite Hr).
  assert (Hu' : In u (users g')) by now rewrite Hg'.
  assert (Hself : In (u_node u, u_node u) (FOLLOWS g')).
  { rewrite Hg'. simpl.
    destruct (merge_rel_cases (u_node u, u_node u) (FOLLOWS g))
      as [[_ ->] | [Hin ->]]; [| assumption].
    apply in_app_iff. right. now left. }
  split; [rewrite Hr, Ha, Hb; reflexivity |].
  split; [assumption |].
  split; [now rewrite (get_user_existing g' u Hwf' Hu') |].
  split.
  { unfold following. apply in_map_iff. exists (u_node u, u_node u).
    split; [reflexivity |]. now apply out_of_In. }
  split.
  { unfold followers. apply in_map_iff. exists (u_node u, u_node u).
    split; [reflexivity |]. now apply into_In. }
  split.
  { intros Hnew. rewrite Hg'. unfold following, followers.
    cbn [FOLLOWS set_FOLLOWS]. rewrite (merge_rel_new _ _ Hnew).
    cbn [fst]. rewrite out_of_snoc, into_snoc by reflexivity.
    rewrite !length_map, !length_app. cbn [List.length].
    rewrite !Nat.add_1_r. split; reflexivity. }
  intros p Hp Hposted.
  assert (Hpath : feed_path g' (u_username u) p u).
  { exists u. repeat split; assumption. }
  split; [now apply feed_paths_In |].
  intros tie limit Hl. now apply feed_lists_all.
Qed.

Lemma self_follow_witness :
  let g' := snd (follow live (mkFollowAction "alice" "alice") alice_alone) in
  fst (follow live (mkFollowAction "alice" "alice") alice_alone)
  = follow_ok "alice" "alice"
  /\ In (0, 0) (FOLLOWS g')
  /\ fst (get_user live "alice" g')
     = get_user_ok alice (List.length (following g' alice))
                         (List.length (followers g' alice))
                         (List.length (authored g' alice)).
Proof.
  pose proof (self_follow alice_alone alice (mkFollowAction "alice" "alice")
                (serve_wf _) (or_introl eq_refl) eq_refl eq_refl) as H.
  cbv zeta in H. destruct H as [H1 [H2 [H3 _]]].
  repeat split; assumption.
Defined.

(** ** The feed and the requester's own posts *)

(** C7, as stated, fails: once a user follows themself (which [follow]
    accepts), their feed lists their own post. *)
Lemma own_post_in_feed :
  let g := snd (follow live (mkFollowAction "alice" "alice") alice_alone) in
  In alice (users g)
  /\ In (u_node alice, 1) (POSTED g)
  /\ get_feed live "alice" None g
     = (Returned 200
          (JArr [JObj [("id", JStr "p1");
                       ("author_username", JStr "alice");
                       ("content", JStr "hello world");
                       ("created_at", JStr "2024-05-01T10:00:00")]]), g).
Proof.
  cbv zeta. split; [left; reflexivity |].
  split; [left; reflexivity | reflexivity].
Qed.

(** C7, amended. In a graph kept by the handlers, for a requester who has
    no FOLLOWS relationship to themself and whatever the order of ties:
    every limit from 0 up to 2^63 - 1 is answered 200, and whenever the
    feed answers with a sequence, each record in it is for a post reached
    over a FOLLOWS relationship from the requester to the author, does not
    carry the requester's username as author, and is for a post the
    requester has no POSTED relationship to. *)
Theorem feed_excludes_own_posts (tie : Tie) (g : Graph) (k : string) :
  wf g ->
  (forall me, In me (users g) -> u_username me = k ->
              ~ In (u_node me, u_node me) (FOLLOWS g)) ->
  (forall limit, accepted_limit (limit_or_default limit) ->
     exists items,
       get_feed (live_with tie) k limit g = (Returned 200 (JArr items), g))
  /\ (forall limit items,
        fst (get_feed (live_with tie) k limit g) = Returned 200 (JArr items) ->
        forall item, In item items ->
          exists p other,
            item = feed_entry (p, other)
            /\ feed_path g k p other
            /\ u_username other <> k
            /\ (forall me, In me (users g) -> u_username me = k ->
                           ~ In (u_node me, p_node p) (POSTED g))).
Proof.
  intros Hwf Hnoself.
  split.
  { intros limit Hl. rewrite (get_feed_live tie k limit g Hl).
    eexists. reflexivity. }
  intros limit items Hret item Hitem.
  destruct (accepted_limit_dec (limit_or_default limit)) as [Hl | Hl].
  2:{ rewrite (get_feed_rejects tie k limit g Hl) in Hret. discriminate. }
  rewrite (get_feed_live tie k limit g Hl) in Hret. simpl in Hret.
  inversion Hret as [Hitems]. subst items.
  apply in_map_iff in Hitem as [[p other] [<- Hin]].
  apply firstn_In in Hin.
  apply (Permutation_in _ (order_by_perm tie _)) in Hin.
  apply feed_paths_In in Hin.
  exists p, other. split; [reflexivity |]. split; [assumption |].
  destruct Hin as [me [Hme [Hk [Ho [Hf [Hp He]]]]]].
  split.
  - intros Hok.
    assert (other = me).
    { apply (NoDup_map_inj u_username (users g)); try assumption;
        [apply (wf_usernames g Hwf) | congruence]. }
    subst other. exact (Hnoself me Hme Hk Hf).
  - intros me' Hme' Hk' He'.
    assert (me' = me).
    { apply (NoDup_map_inj u_username (users g)); try assumption;
        [apply (wf_usernames g Hwf) | congruence]. }
    subst me'.
    pose proof (NoDup_map_inj snd (POSTED g) _ _ (wf_posted_one g Hwf)
                              He He' eq_refl) as Heq.
    inversion Heq as [Hn].
    assert (other = me).
    { apply (NoDup_map_inj u_node (users g)); try assumption.
      apply (wf_user_nodes g Hwf). }
    subst other. exact (Hnoself me Hme Hk Hf).
Qed.

(** ** A small service run *)

Example scenario_feed_and_counts :
  fst (get_feed live "bob" None bob_follows_alice)
  = Returned 200 (JArr [JObj (post_row hello alice)])
  /\ fst (get_user live "alice" bob_follows_alice) = get_user_ok alice 0 1 1.
Proof. split; reflexivity. Qed.

Lemma feed_contents_witness :
  exists selected : list (Post * User),
    get_feed live "bob" None bob_follows_alice
    = (Returned 200 (JArr (map feed_entry selected)), bob_follows_alice)
    /\ List.length (map feed_entry selected)
       = Nat.min 20 (List.length (followee_posts bob_follows_alice "bob"))
    /\ (forall p other, In (p, other) selected ->
                        feed_path bob_follows_alice "bob" p other)
    /\ StronglySorted newer selected
    /\ NoDup (map fst selected)
    /\ (forall q o, feed_path bob_follows_alice "bob" q o ->
                    ~ In q (map fst selected) ->
                    forall x, In x selected -> newer x (q, o)).
Proof.
  assert (Hl : accepted_limit (limit_or_default None))
    by (unfold accepted_limit; simpl; lia).
  exact (proj2 (proj2 (proj2 (feed_contents as_matched bob_follows_alice
                                "bob" None (serve_wf _) Hl)))).
Defined.

Lemma likes_count_distinct_witness :
  let payload := mkLikeAction "bob" "p1" in
  let r1 := like_post live "p1" payload bob_follows_alice in
  let r2 := like_post live "p1" payload (snd r1) in
  fst r1 = like_ok "bob" "p1"
  /\ fst r2 = like_ok "bob" "p1"
  /\ count_occ rel_dec (LIKED (snd r2)) (1, 2) = 1
  /\ snd r2 = snd r1.
Proof.
  pose proof (likes_count_distinct bob_follows_alice bob hello
                (mkLikeAction "bob" "p1") (serve_wf _)
                (or_intror (or_introl eq_refl)) (or_introl eq_refl) eq_refl)
    as H.
  cbv zeta in H. destruct H as [_ [H1 [H2 [H3 [H4 _]]]]].
  repeat split; assumption.
Defined.

Lemma feed_excludes_own_posts_witness :
  (exists items,
      get_feed live "bob" None bob_follows_alice
      = (Returned 200 (JArr items), bob_follows_alice))
  /\ (forall items,
        fst (get_feed live "bob" None bob_follows_alice)
        = Returned 200 (JArr items) ->
        forall item, In item items ->
          exists p other,
            item = feed_entry (p, other) /\ u_username other <> "bob").
Proof.
  assert (Hnoself : forall me, In me (users bob_follows_alice) ->
                      u_username me = "bob" ->
                      ~ In (u_node me, u_node me) (FOLLOWS bob_follows_alice)).
  { intros me Hme Hk [Hin | []]. inversion Hin as [[H1 H2]].
    destruct Hme as [<- | [<- | []]]; simpl in *; discriminate. }
  assert (Hl : accepted_limit (limit_or_default None))
    by (unfold accepted_limit; simpl; lia).
  destruct (feed_excludes_own_posts as_matched bob_follows_alice "bob"
              (serve_wf _) Hnoself) as [H1 H2].
  split; [exact (H1 None Hl) |].
  intros items Hret item Hitem.
  destruct (H2 None items Hret item Hitem) as [p [other [He [_ [Hn _]]]]].
  exists p, other. split; assumption.
Defined.

(** * Further properties of the handlers *)

(** ** Nothing but FOLLOWS is ever removed *)

Lemma grows_refl {A : Type} (l : list A) : grows l l.
Proof. exists []. now rewrite app_nil_r. Qed.

Lemma grows_trans {A : Type} (l1 l2 l3 : list A) :
  grows l1 l2 -> grows l2 l3 -> grows l1 l3.
Proof.
  intros [m1 ->] [m2 ->]. exists (m1 ++ m2). now rewrite app_assoc.
Qed.

Lemma merge_rows_grows {A : Type} (ends : A -> Rel) (rows : list A) :
  forall E, grows E (snd (merge_rows ends rows E)).
Proof.
  induction rows as [| r rest IH]; intros E; [apply grows_refl |].
  rewrite merge_rows_snd. eapply grows_trans; [| apply IH].
  destruct (merge_rel_cases (ends r) E) as [[_ ->] | [_ ->]];
    [now exists [ends r] | apply grows_refl].
Qed.

Lemma create_posts_grows (rows : list User) (id c t : string) :
  forall g recs g',
    create_posts rows id c t g = inr (recs, g') ->
    users g' = users g /\ grows (posts g) (posts g')
    /\ FOLLOWS g' = FOLLOWS g /\ grows (POSTED g) (POSTED g')
    /\ LIKED g' = LIKED g /\ fresh g <= fresh g'
    /\ unique_username g' = unique_username g
    /\ unique_post_id g' = unique_post_id g.
Proof.
  induction rows as [| a rest IH]; simpl; intros g recs g' H.
  - inversion H. subst. repeat split; auto using grows_refl.
  - destruct (unique_post_id g && existsb _ (posts g)); [discriminate |].
    destruct (create_posts rest id c t _) as [e | [recs2 g2]] eqn:Hc;
      [discriminate |].
    inversion H. subst.
    destruct (IH _ _ _ Hc) as [Hu [Hp [Hf [He [Hl [Hn [Hcu Hcp]]]]]]].
    simpl in *. repeat split; try assumption.
    + eapply grows_trans; [| exact Hp]. now eexists.
    + eapply grows_trans; [| exact He]. now eexists.
    + lia.
Qed.

(** X1. Whatever the request and whatever the graph, a handler leaves every
    User node, Post node, POSTED and LIKED relationship that was there, in
    place and unchanged (new ones are only added behind them), keeps the
    declared constraints, and never moves the counter of node identities
    back; FOLLOWS relationships too are only added unless the request is an
    unfollow, and only a follow adds one. *)
Theorem handlers_append_only (r : Request) (g : Graph) :
  let g' := snd (handle live r g) in
  grows (users g) (users g')
  /\ grows (posts g) (posts g')
  /\ grows (POSTED g) (POSTED g')
  /\ grows (LIKED g) (LIKED g')
  /\ fresh g <= fresh g'
  /\ unique_username g' = unique_username g
  /\ unique_post_id g' = unique_post_id g
  /\ ((forall action, r <> POST_unfollow action) ->
      grows (FOLLOWS g) (FOLLOWS g'))
  /\ (forall e, In e (FOLLOWS g') -> In e (FOLLOWS g)
                \/ exists action, r = POST_follow action).
Proof.
  destruct r; cbn [handle]; cbv zeta.
  - (* create_user *)
    unfold create_user. rewrite execute_write_live. cbn [neo4j].
    unfold run_create_user.
    destruct (unique_username g && existsb _ (users g)); simpl;
      repeat split; auto using grows_refl; try (now eexists); lia.
  - rewrite get_user_pure. repeat split; auto using grows_refl.
  - (* follow *)
    rewrite follow_live. cbv zeta.
    set (m := merge_rows _ _ (FOLLOWS g)).
    assert (Hg : grows (FOLLOWS g) (snd m)) by apply merge_rows_grows.
    destruct (map follow_row (fst m)); simpl;
      repeat split; auto using grows_refl; intros e He; right; eauto.
  - (* unfollow *)
    rewrite unfollow_live. simpl. repeat split; auto using grows_refl.
    + intros H. exfalso. now apply (H action).
    + intros e He. apply filter_In in He. tauto.
  - (* create_post *)
    unfold create_post. rewrite execute_write_live. cbn [neo4j].
    unfold run_create_post.
    destruct (create_posts _ _ _ _ g) as [e | [recs g1]] eqn:Hc.
    + simpl. repeat split; auto using grows_refl.
    + destruct (create_posts_grows _ _ _ _ _ _ _ Hc)
        as [Hu [Hp [Hf [He [Hl [Hn [Hcu Hcp]]]]]]].
      assert (Hs : snd (if truthy (_single_or_none recs)
                        then (Returned 201 (json_of (_single_or_none recs)), g1)
                        else (HTTPException 404 "Author not found", g1)) = g1)
        by now destruct (truthy _).
      rewrite Hs. rewrite Hu, Hf, Hl.
      repeat split; auto using grows_refl.
  - rewrite get_post_pure. repeat split; auto using grows_refl.
  - (* like_post *)
    rewrite like_post_live. cbv zeta.
    set (m := merge_rows _ _ (LIKED g)).
    assert (Hg : grows (LIKED g) (snd m)) by apply merge_rows_grows.
    destruct (map like_row (fst m)); simpl;
      repeat split; auto using grows_refl.
  - rewrite get_feed_pure. repeat split; auto using grows_refl.
Qed.

(** ** The data invariants of the service *)

(** X2. After [startup] on an empty store and any sequence of requests:
    no two users share a username, no two posts share an id, no ordered
    pair is joined by more than one FOLLOWS or more than one LIKED
    relationship, every relationship joins nodes that exist, and every post
    has exactly one author. *)
Theorem service_invariants (requests : list Request) :
  let g := serve requests in
  (forall u v, In u (users g) -> In v (users g) ->
               u_username u = u_username v -> u = v)
  /\ (forall p q, In p (posts g) -> In q (posts g) -> p_id p = p_id q -> p = q)
  /\ (forall e, count_occ rel_dec (FOLLOWS g) e <= 1)
  /\ (forall e, count_occ rel_dec (LIKED g) e <= 1)
  /\ (forall e, In e (FOLLOWS g) ->
        exists a b, In a (users g) /\ In b (users g)
                    /\ e = (u_node a, u_node b))
  /\ (forall e, In e (LIKED g) ->
        exists a p, In a (users g) /\ In p (posts g)
                    /\ e = (u_node a, p_node p))
  /\ (forall p, In p (posts g) ->
        exists a, In a (users g)
                  /\ count_occ rel_dec (POSTED g) (u_node a, p_node p) = 1
                  /\ forall b, In b (users g) ->
                               In (u_node b, p_node p) (POSTED g) -> b = a).
Proof.
  intros g. pose proof (serve_wf requests) as Hwf. fold g in Hwf.
  split.
  { intros u v Hu Hv. apply (NoDup_map_inj u_username (users g)); auto.
    apply (wf_usernames g Hwf). }
  split.
  { intros p q Hp Hq. apply (NoDup_map_inj p_id (posts g)); auto.
    apply (wf_post_ids g Hwf). }
  split; [apply NoDup_count_occ, (wf_follows g Hwf) |].
  split; [apply NoDup_count_occ, (wf_liked g Hwf) |].
  split.
  { intros e He. destruct (wf_follows_ends g Hwf e He) as [Ha Hb].
    apply in_map_iff in Ha as [a [Ha Hain]].
    apply in_map_iff in Hb as [b [Hb Hbin]].
    exists a, b. repeat split; auto. rewrite Ha, Hb. now destruct e. }
  split.
  { intros e He. destruct (wf_liked_ends g Hwf e He) as [Ha Hb].
    apply in_map_iff in Ha as [a [Ha Hain]].
    apply in_map_iff in Hb as [q [Hb Hbin]].
    exists a, q. repeat split; auto. rewrite Ha, Hb. now destruct e. }
  intros p Hp.
  destruct (author_unique g p Hwf Hp) as [a [Ha [Hpa _]]].
  exists a. split; [assumption |]. split.
  - assert (Hnd : NoDup (POSTED g))
      by apply (@NoDup_map_inv _ _ snd), (wf_posted_one g Hwf).
    pose proof (proj1 (NoDup_count_occ rel_dec _) Hnd (u_node a, p_node p)).
    pose proof (proj1 (count_occ_In rel_dec _ _) Hpa). lia.
  - intros b Hb Hpb.
    pose proof (NoDup_map_inj snd (POSTED g) _ _ (wf_posted_one g Hwf)
                              Hpb Hpa eq_refl) as Heq.
    inversion Heq as [Hn].
    exact (NoDup_map_inj u_node (users g) b a (wf_user_nodes g Hwf) Hb Ha Hn).
Qed.

(** ** The life cycle of the adapter *)

(** X3. [init_app] connects only an adapter that has no driver: a second
    [init_app] keeps the first connection.  [close] drops the driver, is
    harmless when repeated or when nothing was connected, and a later
    [init_app] connects anew.  Without a driver both [execute_read] and
    [execute_write] raise [AttributeError] and never reach a store. *)
Theorem adapter_life_cycle (self : Neo4jDriver) (c1 c2 : Backend) :
  init_app c2 (init_app c1 self) = init_app c1 self
  /\ (driver self = None -> driver (init_app c1 self) = Some c1)
  /\ driver (close self) = None
  /\ close (close self) = close self
  /\ close neo4j_driver = neo4j_driver
  /\ driver (init_app c1 (close self)) = Some c1
  /\ (forall q g, execute_read (close self) q g = inl AttributeError
                  /\ execute_write (close self) q g = inl AttributeError).
Proof.
  destruct self as [[d |]]; unfold init_app, close, execute_read,
    execute_write; simpl; repeat split; auto; discriminate.
Qed.

(** X4. After [shutdown] (and likewise before [startup], the adapter then
    being as [shutdown] leaves it) every handler that does not catch ends
    with the uncaught [AttributeError] and the graph untouched, while
    create-user answers 400 with that exception's text. *)
Theorem requests_after_shutdown (self : Neo4jDriver) (g : Graph) :
  let off := shutdown self in
  shutdown neo4j_driver = neo4j_driver
  /\ (forall k, get_user off k g = (Unhandled AttributeError, g))
  /\ (forall action, follow off action g = (Unhandled AttributeError, g))
  /\ (forall action, unfollow off action g = (Unhandled AttributeError, g))
  /\ (forall post_id created_at payload,
        create_post off post_id created_at payload g
        = (Unhandled AttributeError, g))
  /\ (forall post_id, get_post off post_id g = (Unhandled AttributeError, g))
  /\ (forall post_id payload,
        like_post off post_id payload g = (Unhandled AttributeError, g))
  /\ (forall k limit, get_feed off k limit g = (Unhandled AttributeError, g))
  /\ (forall user_id created_at payload,
        create_user off user_id created_at payload g
        = (HTTPException 400 (str AttributeError), g)).
Proof.
  intros off.
  assert (Hoff : driver off = None)
    by (subst off; unfold shutdown, close; now destruct (driver self) eqn:E).
  assert (Hr : forall q, execute_read off q g = inl AttributeError)
    by (intros q; unfold execute_read; now rewrite Hoff).
  assert (Hw : forall q, execute_write off q g = inl AttributeError)
    by (intros q; unfold execute_write; now rewrite Hoff).
  split; [reflexivity |].
  split; [intros; unfold get_user; now rewrite Hr |].
  split; [intros; unfold follow; now rewrite Hw |].
  split; [intros; unfold unfollow; now rewrite Hw |].
  split; [intros; unfold create_post; now rewrite Hw |].
  split; [intros; unfold get_post; now rewrite Hr |].
  split; [intros; unfold like_post; now rewrite Hw |].
  split; [intros; unfold get_feed; now rewrite Hr |].
  intros; unfold create_user; now rewrite Hw.
Qed.

(** ** Startup *)

(** X5. A [startup] that succeeds against the store connects the adapter,
    declares both constraints and leaves every node and relationship as it
    was; running [startup] again then changes nothing and reports no
    error. *)
Theorem startup_once_is_enough (g0 g : Graph) (self : Neo4jDriver) :
  startup neo4j neo4j_driver g0 = (None, self, g) ->
  self = live
  /\ unique_username g = true /\ unique_post_id g = true
  /\ users g = users g0 /\ posts g = posts g0 /\ FOLLOWS g = FOLLOWS g0
  /\ POSTED g = POSTED g0 /\ LIKED g = LIKED g0
  /\ startup neo4j self g = (None, self, g).
Proof.
  intros H. apply startup_live in H
    as [-> [Hu [Hp [Hus [Hps [Hf [Hpo [Hl _]]]]]]]].
  repeat (split; [assumption || reflexivity |]).
  unfold startup. change (init_app neo4j live) with live.
  rewrite execute_write_live. cbn [neo4j]. unfold run_constraint_username.
  rewrite Hu. rewrite execute_write_live. cbn [neo4j].
  unfold run_constraint_post_id. now rewrite Hp.
Qed.

Lemma startup_once_is_enough_witness :
  let g := snd (startup neo4j neo4j_driver empty_graph) in
  unique_username g = true /\ unique_post_id g = true
  /\ startup neo4j live g = (None, live, g).
Proof.
  pose proof (startup_once_is_enough empty_graph
                (snd (startup neo4j neo4j_driver empty_graph)) live eq_refl)
    as H.
  cbv zeta. destruct H as [_ [H1 [H2 [_ [_ [_ [_ [_ H3]]]]]]]].
  repeat split; assumption.
Defined.

(** ** get-user *)

Lemma nodup_not_nil {A : Type} (dec : forall x y : A, {x = y} + {x <> y})
      (l : list A) :
  l <> [] -> nodup dec l <> [].
Proof.
  destruct l as [| x l]; [congruence |]. intros _ Hnil.
  assert (H : In x (nodup dec (x :: l))) by (apply nodup_In; now left).
  now rewrite Hnil in H.
Qed.

Lemma get_user_rows_not_nil (g : Graph) (k : string) :
  user_exists g k -> get_user_rows g k <> [].
Proof.
  intros [u [Hu Hk]]. unfold get_user_rows.
  assert (Hm : In u (match_user g k)) by now apply match_user_In.
  destruct (match_user g k) as [| v rest]; [contradiction |].
  cbn [flat_map]. intros Hnil. apply app_eq_nil in Hnil as [Hnil _].
  revert Hnil.
  apply (product_not_nil v (optional (out_users g (FOLLOWS g) (u_node v)))
           (optional (in_users g (FOLLOWS g) (u_node v)))
           (optional (out_posts g (POSTED g) (u_node v))));
    apply optional_not_nil.
Qed.

(** X6. In every graph, get-user answers 200 with a record exactly when
    some User node carries the username and 404 exactly when none does; it
    never changes the graph. *)
Theorem get_user_found_iff (g : Graph) (k : string) :
  ((exists rec, get_user live k g = (Returned 200 (JObj rec), g))
   <-> user_exists g k)
  /\ (get_user live k g = (HTTPException 404 "User not found", g)
      <-> ~ user_exists g k)
  /\ snd (get_user live k g) = g.
Proof.
  assert (Hyes : user_exists g k ->
                 exists rec, get_user live k g = (Returned 200 (JObj rec), g)).
  { intros Hex. unfold get_user. rewrite execute_read_live. cbn [neo4j].
    unfold run_get_user.
    pose proof (get_user_rows_not_nil g k Hex) as Hrows.
    set (rows := get_user_rows g k) in *.
    assert (Hkeys : nodup user_key_dec
                      (map (fun r => user_key (um_user r)) rows) <> []).
    { apply nodup_not_nil. intros Hnil. now apply map_eq_nil in Hnil. }
    destruct (nodup user_key_dec _) as [| key keys]; [congruence |].
    cbn [map _single_or_none]. destruct key as [[[id un] nm] b].
    cbn [get_user_row truthy json_of]. eexists. reflexivity. }
  assert (Hno : ~ user_exists g k ->
                get_user live k g = (HTTPException 404 "User not found", g)).
  { intros H. apply get_user_live_missing. now apply match_user_nil. }
  split; [split; [| exact Hyes] |].
  { intros [rec Hrec].
    destruct (match_user g k) as [| u rest] eqn:Hm.
    - rewrite (get_user_live_missing g k Hm) in Hrec. discriminate.
    - assert (Hu : In u (match_user g k)) by (rewrite Hm; now left).
      apply match_user_In in Hu as [Hu Hk]. now exists u. }
  split; [split; [| exact Hno] |].
  { intros H404 Hex. destruct (Hyes Hex) as [rec Hrec].
    rewrite Hrec in H404. discriminate. }
  apply get_user_pure.
Qed.

(** X7. In a graph kept by the handlers, get-user of an existing user
    answers 200 with the user's id, username, name and bio and with
    [following_count], [followers_count] and [posts_count] equal to the
    number of users the user has a FOLLOWS relationship to, of users with a
    FOLLOWS relationship to the user, and of posts the user has a POSTED
    relationship to. *)
Theorem get_user_counts (g : Graph) (u : User) :
  wf g -> In u (users g) ->
  get_user live (u_username u) g
  = (get_user_ok u (List.length (following g u))
                   (List.length (followers g u))
                   (List.length (authored g u)), g)
  /\ NoDup (following g u) /\ NoDup (followers g u) /\ NoDup (authored g u)
  /\ (forall n, In n (following g u) <-> In (u_node u, n) (FOLLOWS g))
  /\ (forall n, In n (followers g u) <-> In (n, u_node u) (FOLLOWS g))
  /\ (forall n, In n (authored g u) <-> In (u_node u, n) (POSTED g)).
Proof.
  intros Hwf Hu.
  split; [now apply get_user_existing |].
  split; [now apply following_NoDup |].
  split; [now apply followers_NoDup |].
  split; [now apply authored_posts_NoDup |].
  unfold following, followers, authored.
  split; [| split]; intros n; rewrite in_map_iff; split.
  - intros [[s t] [Ht He]]. apply out_of_In in He as [He Hs].
    simpl in *. now subst.
  - intros He. exists (u_node u, n). split; [reflexivity |].
    now apply out_of_In.
  - intros [[s t] [Hs He]]. apply into_In in He as [He Ht].
    simpl in *. now subst.
  - intros He. exists (n, u_node u). split; [reflexivity |].
    now apply into_In.
  - intros [[s t] [Ht He]]. apply out_of_In in He as [He Hs].
    simpl in *. now subst.
  - intros He. exists (u_node u, n). split; [reflexivity |].
    now apply out_of_In.
Qed.

Lemma get_user_counts_witness :
  get_user live "alice" bob_follows_alice
  = (get_user_ok alice (List.length (following bob_follows_alice alice))
                       (List.length (followers bob_follows_alice alice))
                       (List.length (authored bob_follows_alice alice)),
     bob_follows_alice).
Proof.
  apply (get_user_counts bob_follows_alice alice (serve_wf _)
           (or_introl eq_refl)).
Defined.

Lemma fresh_node_no_rel (g : Graph) (E : list Rel) :
  wf g ->
  (forall e, In e E -> In (fst e) (map u_node (users g))) ->
  out_of (fresh g) E = [].
Proof.
  intros Hwf H. apply filter_nil_iff. intros e He.
  apply Nat.eqb_neq. intros Heq.
  specialize (H e He). apply in_map_iff in H as [v [Hv Hin]].
  pose proof (wf_user_fresh g Hwf v Hin). lia.
Qed.

Lemma fresh_node_no_rel_into (g : Graph) (E : list Rel) :
  wf g ->
  (forall e, In e E -> In (snd e) (map u_node (users g))) ->
  into (fresh g) E = [].
Proof.
  intros Hwf H. apply filter_nil_iff. intros e He.
  apply Nat.eqb_neq. intros Heq.
  specialize (H e He). apply in_map_iff in H as [v [Hv Hin]].
  pose proof (wf_user_fresh g Hwf v Hin). lia.
Qed.

(** X8. In a graph kept by the handlers, a user created under an unused
    username can be read back at once: create-user answers 201 and get-user
    of that username then answers 200 with the same id, username, name and
    bio and with all three counts 0. *)
Theorem create_user_then_get_user (g : Graph) (user_id created_at : string)
        (payload : UserCreate) :
  wf g -> ~ user_exists g (username payload) ->
  let u := mkUser (fresh g) user_id (username payload) (name payload)
                  (bio payload) created_at in
  create_user live user_id created_at payload g
  = (Returned 201 (JObj (user_row u)), add_user u g)
  /\ get_user live (username payload) (add_user u g)
     = (get_user_ok u 0 0 0, add_user u g).
Proof.
  intros Hwf Hnew u.
  assert (Hc : create_user live user_id created_at payload g
               = (Returned 201 (JObj (user_row u)), add_user u g)).
  { unfold create_user. rewrite execute_write_live. cbn [neo4j].
    unfold run_create_user. rewrite (wf_unique_username g Hwf).
    destruct (existsb _ (users g)) eqn:He.
    - apply existsb_username in He. contradiction.
    - reflexivity. }
  split; [exact Hc |].
  assert (Hwf' : wf (add_user u g))
    by (apply wf_add_user; [assumption | assumption | reflexivity]).
  assert (Hu : In u (users (add_user u g)))
    by (simpl; apply in_app_iff; right; now left).
  change (username payload) with (u_username u).
  rewrite (get_user_existing (add_user u g) u Hwf' Hu).
  unfold following, followers, authored. cbn [add_user FOLLOWS POSTED u_node u].
  rewrite (fresh_node_no_rel g (FOLLOWS g) Hwf).
  2:{ intros e He. now apply (wf_follows_ends g Hwf). }
  rewrite (fresh_node_no_rel_into g (FOLLOWS g) Hwf).
  2:{ intros e He. now apply (wf_follows_ends g Hwf). }
  rewrite (fresh_node_no_rel g (POSTED g) Hwf).
  2:{ intros e He. now apply (wf_posted_ends g Hwf). }
  reflexivity.
Qed.

Lemma create_user_then_get_user_witness :
  let u := mkUser 3 "id-c" "carol" (Some "Carol") None "t2" in
  create_user live "id-c" "t2" (mkUserCreate "carol" (Some "Carol") None)
              bob_follows_alice
  = (Returned 201 (JObj (user_row u)), add_user u bob_follows_alice)
  /\ get_user live "carol" (add_user u bob_follows_alice)
     = (get_user_ok u 0 0 0, add_user u bob_follows_alice).
Proof.
  apply (create_user_then_get_user bob_follows_alice "id-c" "t2"
           (mkUserCreate "carol" (Some "Carol") None) (serve_wf _)).
  intros [v [[<- | [<- | []]] Hk]]; discriminate.
Defined.

(** ** get-post and create-post *)

Lemma get_post_rows_In (g : Graph) (id : string) (r : PostMatch) :
  In r (get_post_rows g id) -> authored_post_exists g id.
Proof.
  unfold get_post_rows. intros H.
  apply in_flat_map in H as [p [Hp H]]. apply match_post_In in Hp as [Hp Hid].
  apply in_flat_map in H as [a [Ha _]]. apply in_users_In in Ha as [Ha He].
  exists p, a. auto.
Qed.

Lemma get_post_rows_some (g : Graph) (id : string) :
  authored_post_exists g id -> get_post_rows g id <> [].
Proof.
  intros [p [a [Hp [Hid [Ha He]]]]].
  destruct (some_elt (optional (in_users g (LIKED g) (p_node p)))
                     (optional_not_nil _)) as [u Hu].
  assert (H : In (p, a, u) (get_post_rows g id)).
  { unfold get_post_rows. apply in_flat_map. exists p.
    split; [now apply match_post_In |].
    apply in_flat_map. exists a. split; [now apply in_users_In |].
    now apply in_map. }
  intros Hnil. now rewrite Hnil in H.
Qed.

(** X9. In every graph, get-post answers 200 with a record exactly when a
    post of that id has an author (a User with a POSTED relationship to
    it), and 404 otherwise; a post node without author is reported as not
    found.  In a graph kept by the handlers every post has its author, so
    there the answer is 200 exactly when the id exists.  The graph is never
    changed. *)
Theorem get_post_found_iff (g : Graph) (id : string) :
  ((exists rec, get_post live id g = (Returned 200 (JObj rec), g))
   <-> authored_post_exists g id)
  /\ (get_post live id g = (HTTPException 404 "Post not found", g)
      <-> ~ authored_post_exists g id)
  /\ (wf g -> (authored_post_exists g id <-> post_exists g id))
  /\ snd (get_post live id g) = g.
Proof.
  assert (Hrun : get_post live id g
                 = let recs := fst (match run_get_post id g with
                                    | inr x => x | inl _ => ([], g) end) in
                   if truthy (_single_or_none recs)
                   then (Returned 200 (json_of (_single_or_none recs)), g)
                   else (HTTPException 404 "Post not found", g)).
  { unfold get_post. rewrite execute_read_live. reflexivity. }
  assert (Hyes : authored_post_exists g id ->
                 exists rec, get_post live id g = (Returned 200 (JObj rec), g)).
  { intros Hex. rewrite Hrun. unfold run_get_post. cbn [fst].
    pose proof (get_post_rows_some g id Hex) as Hrows.
    set (rows := get_post_rows g id) in *.
    assert (Hkeys : nodup post_key_dec (map post_key rows) <> []).
    { apply nodup_not_nil. intros Hnil. now apply map_eq_nil in Hnil. }
    destruct (nodup post_key_dec _) as [| key keys]; [congruence |].
    cbn [map _single_or_none]. destruct key as [[[i au] c] t].
    cbn [get_post_row truthy json_of]. eexists. reflexivity. }
  assert (Hnil : get_post_rows g id = [] ->
                 get_post live id g
                 = (HTTPException 404 "Post not found", g)).
  { intros H. rewrite Hrun. unfold run_get_post. rewrite H. reflexivity. }
  assert (Hno : ~ authored_post_exists g id -> get_post_rows g id = []).
  { intros H. destruct (get_post_rows g id) as [| r rest] eqn:Hr;
      [reflexivity |].
    exfalso. apply H. apply (get_post_rows_In g id r). rewrite Hr. now left. }
  split; [split; [| exact Hyes] |].
  { intros [rec Hrec].
    destruct (get_post_rows g id) as [| r rest] eqn:Hr.
    - rewrite (Hnil eq_refl) in Hrec. discriminate.
    - apply (get_post_rows_In g id r). rewrite Hr. now left. }
  split; [split; [| intros H; now apply Hnil, Hno] |].
  { intros H404 Hex. destruct (Hyes Hex) as [rec Hrec].
    rewrite Hrec in H404. discriminate. }
  split; [| apply get_post_pure].
  intros Hwf. split.
  - intros [p [a [Hp [Hid _]]]]. now exists p.
  - intros [p [Hp Hid]].
    destruct (author_unique g p Hwf Hp) as [a [Ha [He _]]].
    exists p, a. auto.
Qed.

Lemma fresh_post_no_like (g : Graph) :
  wf g -> into (fresh g) (LIKED g) = [].
Proof.
  intros Hwf. apply filter_nil_iff. intros e He.
  apply Nat.eqb_neq. intros Heq.
  destruct (wf_liked_ends g Hwf e He) as [_ H].
  apply in_map_iff in H as [q [Hq Hin]].
  pose proof (wf_post_fresh g Hwf q Hin). lia.
Qed.

(** X10. In a graph kept by the handlers, create-post for an existing
    author and an unused id answers 201 with id, author, content and
    timestamp and adds one Post node with one POSTED relationship from the
    author; get-post of that id then answers 200 with the same fields and
    0 likes, and get-user of the author reports one post more and the
    follow counts as before. *)
Theorem create_post_then_get_post (g : Graph) (a : User)
        (post_id created_at : string) (payload : PostCreate) :
  wf g -> In a (users g) -> author_username payload = u_username a ->
  ~ post_exists g post_id ->
  let p := mkPost (fresh g) post_id (content payload) created_at in
  let g' := add_post (u_node a) p g in
  create_post live post_id created_at payload g
  = (Returned 201 (JObj (post_row p a)), g')
  /\ get_post live post_id g' = (get_post_ok p a 0, g')
  /\ get_user live (u_username a) g'
     = (get_user_ok a (List.length (following g a))
                      (List.length (followers g a))
                      (S (List.length (authored g a))), g').
Proof.
  intros Hwf Ha Hname Hnew p g'.
  assert (Hwf' : wf g')
    by (apply wf_add_post; [assumption | assumption | assumption | reflexivity]).
  assert (Hp' : In p (posts g'))
    by (simpl; apply in_app_iff; right; now left).
  split.
  { unfold create_post. rewrite execute_write_live. cbn [neo4j].
    unfold run_create_post. rewrite Hname, (match_user_unique g a Hwf Ha).
    cbn [create_posts]. rewrite (wf_unique_post_id g Hwf).
    destruct (existsb _ (posts g)) eqn:He.
    - apply existsb_post_id in He. contradiction.
    - reflexivity. }
  split.
  { destruct (get_post_existing g' p Hwf' Hp') as [a' [Ha' [He Hget]]].
    assert (a' = a).
    { apply (NoDup_map_inj u_node (users g)); try assumption.
      - apply (wf_user_nodes g Hwf).
      - simpl in He. apply in_app_iff in He as [He | [He | []]].
        + destruct (wf_posted_ends g Hwf _ He) as [_ Hq]. simpl in Hq.
          apply in_map_iff in Hq as [q [Hq Hin]].
          pose proof (wf_post_fresh g Hwf q Hin). lia.
        + now inversion He. }
    subst a'. change post_id with (p_id p). rewrite Hget.
    unfold likers. cbn [g' add_post LIKED p p_node].
    now rewrite (fresh_post_no_like g Hwf). }
  assert (Ha' : In a (users g')) by exact Ha.
  rewrite (get_user_existing g' a Hwf' Ha').
  unfold following, followers, authored. cbn [g' add_post FOLLOWS POSTED].
  rewrite out_of_snoc by reflexivity.
  rewrite map_app, length_app. cbn [map List.length].
  now rewrite Nat.add_1_r.
Qed.

Lemma create_post_then_get_post_witness :
  let p := mkPost 3 "p2" "second" "2024-05-02T08:00:00" in
  let g' := add_post 0 p bob_follows_alice in
  create_post live "p2" "2024-05-02T08:00:00" (mkPostCreate "alice" "second")
              bob_follows_alice
  = (Returned 201 (JObj (post_row p alice)), g')
  /\ get_post live "p2" g' = (get_post_ok p alice 0, g').
Proof.
  pose proof (create_post_then_get_post bob_follows_alice alice "p2"
                "2024-05-02T08:00:00" (mkPostCreate "alice" "second")
                (serve_wf _) (or_introl eq_refl) eq_refl) as H.
  cbv zeta in H. cbv zeta.
  assert (Hnew : ~ post_exists bob_follows_alice "p2").
  { intros [q [[<- | []] Hk]]. discriminate. }
  destruct (H Hnew) as [H1 [H2 _]]. split; assumption.
Defined.

(** X11. create-post does not catch what the store raises: in a graph kept
    by the handlers, a post id that is already in use makes the store
    reject the CREATE, and the request of an existing author ends with the
    uncaught constraint error (not with the 400 that create-user gives) and
    creates nothing. *)
Theorem create_post_duplicate_id (g : Graph) (a : User)
        (post_id created_at : string) (payload : PostCreate) :
  wf g -> In a (users g) -> author_username payload = u_username a ->
  post_exists g post_id ->
  create_post live post_id created_at payload g
  = (Unhandled ConstraintError, g).
Proof.
  intros Hwf Ha Hname Hdup.
  unfold create_post. rewrite execute_write_live. cbn [neo4j].
  unfold run_create_post. rewrite Hname, (match_user_unique g a Hwf Ha).
  cbn [create_posts]. rewrite (wf_unique_post_id g Hwf).
  apply existsb_post_id in Hdup. now rewrite Hdup.
Qed.

Lemma create_post_duplicate_id_witness :
  create_post live "p1" "2024-06-01T00:00:00" (mkPostCreate "alice" "again")
              bob_follows_alice
  = (Unhandled ConstraintError, bob_follows_alice).
Proof.
  apply (create_post_duplicate_id bob_follows_alice alice "p1"
           "2024-06-01T00:00:00" (mkPostCreate "alice" "again")
           (serve_wf _) (or_introl eq_refl) eq_refl).
  exists hello. split; [now left | reflexivity].
Defined.

(** ** Follow and like: found or not found *)

Lemma merge_rows_out_In {A : Type} (ends : A -> Rel) (rows : list A) :
  forall E r, In r (fst (merge_rows ends rows E)) -> In r rows.
Proof.
  induction rows as [| x rest IH]; intros E r; simpl; [auto |].
  destruct (merge_rel (ends x) E) as [E1 k].
  destruct (merge_rows ends rest E1) as [out E2] eqn:Hm. simpl.
  intros H. apply in_app_iff in H as [H | H].
  - left. now apply repeat_spec in H.
  - right. apply (IH E1). now rewrite Hm.
Qed.

Lemma list_prod_not_nil {A B : Type} (l : list A) (l' : list B) :
  l <> [] -> l' <> [] -> list_prod l l' <> [].
Proof.
  intros Hl Hl'. destruct (some_elt l Hl) as [x Hx].
  destruct (some_elt l' Hl') as [y Hy].
  assert (H : In (x, y) (list_prod l l')) by now apply in_prod.
  intros Hnil. now rewrite Hnil in H.
Qed.

Lemma list_prod_nil_inv {A B : Type} (l : list A) (l' : list B) :
  list_prod l l' = [] -> l = [] \/ l' = [].
Proof.
  destruct l as [| x l]; [now left |]. destruct l' as [| y l']; [now right |].
  discriminate.
Qed.

Lemma match_user_not_nil (g : Graph) (k : string) :
  match_user g k <> [] <-> user_exists g k.
Proof.
  split.
  - intros H. destruct (some_elt _ H) as [u Hu].
    apply match_user_In in Hu as [Hu Hk]. now exists u.
  - intros [u [Hu Hk]] Hnil.
    assert (H : In u (match_user g k)) by now apply match_user_In.
    now rewrite Hnil in H.
Qed.

Lemma match_post_not_nil (g : Graph) (k : string) :
  match_post g k <> [] <-> post_exists g k.
Proof.
  split.
  - intros H. destruct (some_elt _ H) as [p Hp].
    apply match_post_In in Hp as [Hp Hk]. now exists p.
  - intros [p [Hp Hk]] Hnil.
    assert (H : In p (match_post g k)) by now apply match_post_In.
    now rewrite Hnil in H.
Qed.

(** X12. In every graph, follow answers 201 with exactly the requested
    pair when users of both names exist, and 404 when one of them is
    missing; there is no third outcome against the live store. *)
Theorem follow_found_iff (action : FollowAction) (g : Graph) :
  let a := follower_username action in
  let b := followee_username action in
  (fst (follow live action g) = follow_ok a b
   <-> user_exists g a /\ user_exists g b)
  /\ (fst (follow live action g)
      = HTTPException 404 "One or both users not found"
      <-> ~ (user_exists g a /\ user_exists g b)).
Proof.
  intros a b. rewrite follow_live. cbv zeta. fold a b.
  set (rows := list_prod (match_user g a) (match_user g b)).
  set (ends := fun r : User * User => (u_node (fst r), u_node (snd r))).
  destruct (fst (merge_rows ends rows (FOLLOWS g))) as [| r out] eqn:Hout.
  - assert (Hrows : rows = [])
      by (apply (merge_rows_nil_out ends rows (FOLLOWS g)); exact Hout).
    assert (Hno : ~ (user_exists g a /\ user_exists g b)).
    { intros [Ha Hb]. apply match_user_not_nil in Ha, Hb.
      now apply (list_prod_not_nil _ _ Ha Hb). }
    simpl. split; split; auto; try discriminate. intros H. contradiction.
  - assert (Hr : In r rows).
    { apply (merge_rows_out_In ends rows (FOLLOWS g)). rewrite Hout.
      now left. }
    apply list_prod_In in Hr as [Hra Hrb].
    apply match_user_In in Hra as [Hra Hna].
    apply match_user_In in Hrb as [Hrb Hnb].
    assert (Hyes : user_exists g a /\ user_exists g b)
      by (split; eexists; eauto).
    simpl. unfold follow_row, follow_ok. rewrite Hna, Hnb.
    split; split; auto; try discriminate. intros H. contradiction.
Qed.

(** X13. In every graph, like answers 200 with the requested username and
    post id when a user of that name and a post of that id exist, and 404
    when one of them is missing. *)
Theorem like_found_iff (post_id : string) (payload : LikeAction) (g : Graph) :
  let k := like_username payload in
  (fst (like_post live post_id payload g) = like_ok k post_id
   <-> user_exists g k /\ post_exists g post_id)
  /\ (fst (like_post live post_id payload g)
      = HTTPException 404 "User or post not found"
      <-> ~ (user_exists g k /\ post_exists g post_id)).
Proof.
  intros k. rewrite like_post_live. cbv zeta. fold k.
  set (rows := list_prod (match_user g k) (match_post g post_id)).
  set (ends := fun r : User * Post => (u_node (fst r), p_node (snd r))).
  destruct (fst (merge_rows ends rows (LIKED g))) as [| r out] eqn:Hout.
  - assert (Hrows : rows = [])
      by (apply (merge_rows_nil_out ends rows (LIKED g)); exact Hout).
    assert (Hno : ~ (user_exists g k /\ post_exists g post_id)).
    { intros [Ha Hb]. apply match_user_not_nil in Ha.
      apply match_post_not_nil in Hb.
      now apply (list_prod_not_nil _ _ Ha Hb). }
    simpl. split; split; auto; try discriminate. intros H. contradiction.
  - assert (Hr : In r rows).
    { apply (merge_rows_out_In ends rows (LIKED g)). rewrite Hout.
      now left. }
    apply list_prod_In in Hr as [Hra Hrb].
    apply match_user_In in Hra as [Hra Hna].
    apply match_post_In in Hrb as [Hrb Hnb].
    assert (Hyes : user_exists g k /\ post_exists g post_id)
      by (split; eexists; eauto).
    simpl. unfold like_row, like_ok. rewrite Hna, Hnb.
    split; split; auto; try discriminate. intros H. contradiction.
Qed.

(** ** Follow and unfollow together *)

Lemma named_unique (g : Graph) (u : User) (n : nat) :
  wf g -> In u (users g) ->
  (named g n (u_username u) = true <-> n = u_node u).
Proof.
  intros Hwf Hu. rewrite named_true. split.
  - intros [v [Hv [Hn Hk]]].
    assert (v = u)
      by (apply (NoDup_map_inj u_username (users g)); auto;
          apply (wf_usernames g Hwf)).
    now subst.
  - intros ->. now exists u.
Qed.

Lemma filter_idem {A : Type} (f : A -> bool) (l : list A) :
  filter f (filter f l) = filter f l.
Proof.
  apply filter_all. intros x Hx. now apply filter_In in Hx.
Qed.

(** X14. In a graph kept by the handlers, following someone not yet
    followed and then unfollowing them gives back exactly the graph from
    before, both calls succeeding. *)
Theorem follow_then_unfollow (action : FollowAction) (g : Graph)
        (ua ub : User) :
  wf g -> In ua (users g) -> In ub (users g) ->
  u_username ua = follower_username action ->
  u_username ub = followee_username action ->
  ~ In (u_node ua, u_node ub) (FOLLOWS g) ->
  let r1 := follow live action g in
  let r2 := unfollow live action (snd r1) in
  fst r1 = follow_ok (follower_username action) (followee_username action)
  /\ FOLLOWS (snd r1) = FOLLOWS g ++ [(u_node ua, u_node ub)]
  /\ fst r2 = Returned 200 (JObj [("detail", JStr "OK")])
  /\ snd r2 = g.
Proof.
  intros Hwf Ha Hb Hna Hnb Hnew r1 r2.
  assert (H1 : r1 = (follow_ok (follower_username action)
                               (followee_username action),
                     set_FOLLOWS (FOLLOWS g ++ [(u_node ua, u_node ub)]) g)).
  { subst r1. rewrite (follow_existing action g ua ub Hwf Ha Hb Hna Hnb).
    now rewrite (merge_rel_new _ _ Hnew). }
  split; [now rewrite H1 |]. split; [now rewrite H1 |].
  subst r2. rewrite unfollow_live. split; [reflexivity |].
  rewrite H1. cbn [snd fst FOLLOWS set_FOLLOWS].
  rewrite <- Hna, <- Hnb.
  change (named (set_FOLLOWS (FOLLOWS g ++ [(u_node ua, u_node ub)]) g))
    with (named g).
  rewrite filter_app. cbn [filter fst snd].
  rewrite (proj2 (named_unique g ua (u_node ua) Hwf Ha) eq_refl).
  rewrite (proj2 (named_unique g ub (u_node ub) Hwf Hb) eq_refl).
  cbn [andb negb]. rewrite app_nil_r.
  rewrite filter_all.
  - unfold set_FOLLOWS. cbn. now destruct g.
  - intros e He.
    destruct (named g (fst e) (u_username ua)
              && named g (snd e) (u_username ub)) eqn:Hn; [| reflexivity].
    apply andb_true_iff in Hn as [H2 H3].
    apply (named_unique g ua _ Hwf Ha) in H2.
    apply (named_unique g ub _ Hwf Hb) in H3.
    exfalso. apply Hnew. rewrite <- H2, <- H3. now destruct e.
Qed.

Lemma follow_then_unfollow_witness :
  let g := serve [POST_users "id-a" "t0" (mkUserCreate "alice" None None);
                  POST_users "id-b" "t1" (mkUserCreate "bob" None None)] in
  let action := mkFollowAction "bob" "alice" in
  FOLLOWS (snd (follow live action g)) = [(1, 0)]
  /\ snd (unfollow live action (snd (follow live action g))) = g.
Proof.
  pose proof (follow_then_unfollow (mkFollowAction "bob" "alice")
                (serve [POST_users "id-a" "t0" (mkUserCreate "alice" None None);
                        POST_users "id-b" "t1" (mkUserCreate "bob" None None)])
                bob alice (serve_wf _)
                (or_intror (or_introl eq_refl)) (or_introl eq_refl)
                eq_refl eq_refl (fun H : False => H)) as H.
  cbv zeta in H. destruct H as [_ [H1 [_ H2]]]. split; assumption.
Defined.

(** X15. In every graph, a second unfollow of the same pair answers 200
    again and changes nothing more: the graph after two calls is the graph
    after one. *)
Theorem unfollow_idempotent (action : FollowAction) (g : Graph) :
  let g1 := snd (unfollow live action g) in
  unfollow live action g1 = (Returned 200 (JObj [("detail", JStr "OK")]), g1).
Proof.
  intros g1. subst g1. rewrite (unfollow_live action g). cbn [snd].
  set (keep := fun e : Rel =>
                 negb (named g (fst e) (follower_username action)
                       && named g (snd e) (followee_username action))).
  rewrite unfollow_live. f_equal.
  change (set_FOLLOWS (filter keep (filter keep (FOLLOWS g)))
                      (set_FOLLOWS (filter keep (FOLLOWS g)) g)
          = set_FOLLOWS (filter keep (FOLLOWS g)) g).
  now rewrite filter_idem.
Qed.

(** ** What a follow changes for the two users *)

Lemma out_of_snoc_other (x : nat) (E : list Rel) (e : Rel) :
  fst e <> x -> out_of x (E ++ [e]) = out_of x E.
Proof.
  intros H. unfold out_of. rewrite filter_app. simpl.
  apply Nat.eqb_neq in H. rewrite H. apply app_nil_r.
Qed.

Lemma into_snoc_other (x : nat) (E : list Rel) (e : Rel) :
  snd e <> x -> into x (E ++ [e]) = into x E.
Proof.
  intros H. unfold into. rewrite filter_app. simpl.
  apply Nat.eqb_neq in H. rewrite H. apply app_nil_r.
Qed.

(** X16. In a graph kept by the handlers, when a user follows another user
    for the first time, get-user afterwards reports one followee more for
    the follower and one follower more for the followee, and every other
    count of the two as before. *)
Theorem follow_moves_counts (action : FollowAction) (g : Graph)
        (ua ub : User) :
  wf g -> In ua (users g) -> In ub (users g) -> ua <> ub ->
  u_username ua = follower_username action ->
  u_username ub = followee_username action ->
  ~ In (u_node ua, u_node ub) (FOLLOWS g) ->
  let g' := snd (follow live action g) in
  get_user live (u_username ua) g'
  = (get_user_ok ua (S (List.length (following g ua)))
                    (List.length (followers g ua))
                    (List.length (authored g ua)), g')
  /\ get_user live (u_username ub) g'
     = (get_user_ok ub (List.length (following g ub))
                       (S (List.length (followers g ub)))
                       (List.length (authored g ub)), g').
Proof.
  intros Hwf Ha Hb Hab Hna Hnb Hnew g'.
  assert (Hwf' : wf g') by now apply follow_wf.
  assert (Hg' : g' = set_FOLLOWS (FOLLOWS g ++ [(u_node ua, u_node ub)]) g).
  { subst g'. rewrite (follow_existing action g ua ub Hwf Ha Hb Hna Hnb).
    now rewrite (merge_rel_new _ _ Hnew). }
  assert (Hn : u_node ua <> u_node ub).
  { intros H. apply Hab.
    exact (NoDup_map_inj u_node (users g) ua ub (wf_user_nodes g Hwf)
                         Ha Hb H). }
  assert (Ha' : In ua (users g')) by now rewrite Hg'.
  assert (Hb' : In ub (users g')) by now rewrite Hg'.
  rewrite (get_user_existing g' ua Hwf' Ha').
  rewrite (get_user_existing g' ub Hwf' Hb').
  unfold following, followers, authored. rewrite Hg'.
  cbn [FOLLOWS POSTED set_FOLLOWS].
  rewrite (out_of_snoc (u_node ua)) by reflexivity.
  rewrite (into_snoc (u_node ub)) by reflexivity.
  rewrite (into_snoc_other (u_node ua)) by (simpl; congruence).
  rewrite (out_of_snoc_other (u_node ub)) by (simpl; congruence).
  rewrite !map_app, !length_app. cbn [map List.length].
  rewrite !Nat.add_1_r. split; reflexivity.
Qed.

Lemma follow_moves_counts_witness :
  let g := serve [POST_users "id-a" "t0" (mkUserCreate "alice" None None);
                  POST_users "id-b" "t1" (mkUserCreate "bob" None None)] in
  let g' := snd (follow live (mkFollowAction "bob" "alice") g) in
  get_user live "bob" g' = (get_user_ok bob 1 0 0, g')
  /\ get_user live "alice" g' = (get_user_ok alice 0 1 0, g').
Proof.
  apply (follow_moves_counts (mkFollowAction "bob" "alice")
           (serve [POST_users "id-a" "t0" (mkUserCreate "alice" None None);
                   POST_users "id-b" "t1" (mkUserCreate "bob" None None)])
           bob alice (serve_wf _)
           (or_intror (or_introl eq_refl)) (or_introl eq_refl)).
  - discriminate.
  - reflexivity.
  - reflexivity.
  - intros H. exact H.
Defined.

(** ** Follow, unfollow and the feed *)

(** X17. In a graph kept by the handlers, once a user follows another
    user, every post of the followee is matched by the follower's feed and,
    whatever the order of ties, is listed in it for every limit below 2^63
    that is at least the number of posts of all followees. *)
Theorem follow_then_feed (tie : Tie) (action : FollowAction) (g : Graph)
        (ua ub : User) (p : Post) (limit : option Z) :
  wf g -> In ua (users g) -> In ub (users g) ->
  u_username ua = follower_username action ->
  u_username ub = followee_username action ->
  In p (posts g) -> In (u_node ub, p_node p) (POSTED g) ->
  let g' := snd (follow live action g) in
  (Z.of_nat (List.length (followee_posts g' (u_username ua)))
   <= limit_or_default limit < 2 ^ 63)%Z ->
  feed_path g' (u_username ua) p ub
  /\ exists items,
      fst (get_feed (live_with tie) (u_username ua) limit g')
      = Returned 200 (JArr items)
      /\ In (feed_entry (p, ub)) items.
Proof.
  intros Hwf Ha Hb Hna Hnb Hp He g' Hl.
  assert (Hwf' : wf g') by now apply follow_wf.
  assert (Hg' : g' = set_FOLLOWS (fst (merge_rel (u_node ua, u_node ub)
                                                 (FOLLOWS g))) g)
    by (subst g'; now rewrite (follow_existing action g ua ub Hwf Ha Hb)).
  assert (Hedge : In (u_node ua, u_node ub) (FOLLOWS g')).
  { rewrite Hg'. simpl.
    destruct (merge_rel_cases (u_node ua, u_node ub) (FOLLOWS g))
      as [[_ ->] | [Hin ->]]; [| assumption].
    apply in_app_iff. right. now left. }
  assert (Hpath : feed_path g' (u_username ua) p ub).
  { exists ua. rewrite Hg' in *. simpl in *. repeat split; assumption. }
  split; [assumption |]. now apply feed_lists_all.
Qed.

Lemma follow_then_feed_witness :
  let g := serve [POST_users "id-a" "t0" (mkUserCreate "alice" None None);
                  POST_users "id-b" "t1" (mkUserCreate "bob" None None);
                  POST_posts "p1" "2024-05-01T10:00:00"
                             (mkPostCreate "alice" "hello world")] in
  let g' := snd (follow live (mkFollowAction "bob" "alice") g) in
  exists items,
    fst (get_feed live "bob" None g') = Returned 200 (JArr items)
    /\ In (feed_entry (hello, alice)) items.
Proof.
  cbv zeta.
  refine (proj2 (follow_then_feed as_matched (mkFollowAction "bob" "alice")
           (serve [POST_users "id-a" "t0" (mkUserCreate "alice" None None);
                   POST_users "id-b" "t1" (mkUserCreate "bob" None None);
                   POST_posts "p1" "2024-05-01T10:00:00"
                              (mkPostCreate "alice" "hello world")])
           bob alice hello None (serve_wf _)
           (or_intror (or_introl eq_refl)) (or_introl eq_refl)
           eq_refl eq_refl (or_introl eq_refl) (or_introl eq_refl) _)).
  vm_compute. split; [discriminate | reflexivity].
Defined.

(** X18. In every graph and whatever the order of ties, after an unfollow
    the feed of the former follower answers 200 for every limit from 0 up
    to 2^63 - 1, and whenever it answers with a sequence, no record in it
    is for a post listed under the username of the unfollowed user. *)
Theorem unfollow_clears_feed (tie : Tie) (action : FollowAction)
        (g : Graph) :
  let a := follower_username action in
  let b := followee_username action in
  let g' := snd (unfollow live action g) in
  (forall limit, accepted_limit (limit_or_default limit) ->
     exists items,
       get_feed (live_with tie) a limit g' = (Returned 200 (JArr items), g'))
  /\ (forall limit items,
        fst (get_feed (live_with tie) a limit g') = Returned 200 (JArr items) ->
        forall item, In item items ->
          exists p other,
            item = feed_entry (p, other)
            /\ feed_path g' a p other
            /\ u_username other <> b).
Proof.
  intros a b g'.
  split.
  { intros limit Hl. rewrite (get_feed_live tie a limit g' Hl).
    eexists. reflexivity. }
  intros limit items Hret item Hitem.
  destruct (accepted_limit_dec (limit_or_default limit)) as [Hl | Hl].
  2:{ rewrite (get_feed_rejects tie a limit g' Hl) in Hret. discriminate. }
  rewrite (get_feed_live tie a limit g' Hl) in Hret. simpl in Hret.
  inversion Hret as [Hitems]. subst items.
  apply in_map_iff in Hitem as [[p other] [<- Hin]].
  apply firstn_In in Hin.
  apply (Permutation_in _ (order_by_perm tie _)) in Hin.
  apply feed_paths_In in Hin.
  exists p, other. split; [reflexivity |]. split; [assumption |].
  intros Hb.
  destruct Hin as [me [Hme [Hk [Ho [Hf _]]]]].
  subst g'. rewrite unfollow_live in Hme, Ho, Hf. simpl in Hme, Ho, Hf.
  apply filter_In in Hf as [_ Hf]. simpl in Hf. fold a b in Hf.
  assert (H1 : named g (u_node me) a = true) by (apply named_true; eauto).
  assert (H2 : named g (u_node other) b = true) by (apply named_true; eauto).
  rewrite H1, H2 in Hf. discriminate.
Qed.

(** ** A first like *)

(** X19. In a graph kept by the handlers, the first like of a post by a
    user raises the [likes] that get-post reports for that post by exactly
    one; author, content and timestamp stay. *)
Theorem like_adds_one (g : Graph) (u : User) (p : Post)
        (payload : LikeAction) :
  wf g -> In u (users g) -> In p (posts g) ->
  like_username payload = u_username u ->
  ~ In (u_node u, p_node p) (LIKED g) ->
  let g' := snd (like_post live (p_id p) payload g) in
  exists a,
    get_post live (p_id p) g
    = (get_post_ok p a (List.length (likers g p)), g)
    /\ get_post live (p_id p) g'
       = (get_post_ok p a (S (List.length (likers g p))), g').
Proof.
  intros Hwf Hu Hp Hname Hnew g'.
  assert (Hwf' : wf g') by now apply like_post_wf.
  assert (Hg' : g' = set_LIKED (LIKED g ++ [(u_node u, p_node p)]) g).
  { subst g'. rewrite (like_post_existing g u p payload Hwf Hu Hp Hname).
    now rewrite (merge_rel_new _ _ Hnew). }
  assert (Hp' : In p (posts g')) by now rewrite Hg'.
  destruct (get_post_existing g p Hwf Hp) as [a [Ha [He Hget]]].
  destruct (get_post_existing g' p Hwf' Hp') as [a' [Ha' [He' Hget']]].
  assert (a' = a).
  { rewrite Hg' in Ha', He'. simpl in Ha', He'.
    pose proof (NoDup_map_inj snd (POSTED g) _ _ (wf_posted_one g Hwf)
                              He' He eq_refl) as Heq.
    inversion Heq as [Hn].
    exact (NoDup_map_inj u_node (users g) a' a (wf_user_nodes g Hwf)
                         Ha' Ha Hn). }
  subst a'. exists a. split; [assumption |]. rewrite Hget'.
  do 2 f_equal. unfold likers.
  rewrite (nodup_fixed_point Nat.eq_dec (liked_sources_NoDup g' _ Hwf')).
  rewrite (nodup_fixed_point Nat.eq_dec (liked_sources_NoDup g _ Hwf)).
  rewrite Hg'. cbn [LIKED set_LIKED].
  rewrite into_snoc by reflexivity.
  rewrite map_app, length_app. cbn [map List.length].
  now rewrite Nat.add_1_r.
Qed.

Lemma like_adds_one_witness :
  let g' := snd (like_post live "p1" (mkLikeAction "bob" "p1")
                           bob_follows_alice) in
  exists a,
    get_post live "p1" bob_follows_alice
    = (get_post_ok hello a (List.length (likers bob_follows_alice hello)),
       bob_follows_alice)
    /\ get_post live "p1" g'
       = (get_post_ok hello a
            (S (List.length (likers bob_follows_alice hello))), g').
Proof.
  apply (like_adds_one bob_follows_alice bob hello (mkLikeAction "bob" "p1")
           (serve_wf _) (or_intror (or_introl eq_refl)) (or_introl eq_refl)
           eq_refl).
  intros H. exact H.
Defined.

(** ** A new post and the followers' feeds *)

Lemma create_post_fresh (g : Graph) (a : User) (post_id created_at : string)
      (payload : PostCreate) :
  wf g -> In a (users g) -> author_username payload = u_username a ->
  ~ post_exists g post_id ->
  create_post live post_id created_at payload g
  = (Returned 201
       (JObj (post_row (mkPost (fresh g) post_id (content payload) created_at)
                       a)),
     add_post (u_node a)
              (mkPost (fresh g) post_id (content payload) created_at) g).
Proof.
  intros Hwf Ha Hname Hnew.
  unfold create_post. rewrite execute_write_live. cbn [neo4j].
  unfold run_create_post. rewrite Hname, (match_user_unique g a Hwf Ha).
  cbn [create_posts]. rewrite (wf_unique_post_id g Hwf).
  destruct (existsb _ (posts g)) eqn:He.
  - apply existsb_post_id in He. contradiction.
  - reflexivity.
Qed.

(** X21. In a graph kept by the handlers, a post created by a user is
    listed, as soon as it is created and whatever the order of ties, in the
    feed of every user who follows the author, for every limit below 2^63
    that is at least the number of posts of all followees. *)
Theorem create_post_then_feed (tie : Tie) (g : Graph) (ua ub : User)
        (post_id created_at : string) (payload : PostCreate)
        (limit : option Z) :
  wf g -> In ua (users g) -> In ub (users g) ->
  In (u_node ua, u_node ub) (FOLLOWS g) ->
  author_username payload = u_username ub ->
  ~ post_exists g post_id ->
  let p := mkPost (fresh g) post_id (content payload) created_at in
  let g' := snd (create_post live post_id created_at payload g) in
  (Z.of_nat (List.length (followee_posts g' (u_username ua)))
   <= limit_or_default limit < 2 ^ 63)%Z ->
  exists items,
    fst (get_feed (live_with tie) (u_username ua) limit g')
    = Returned 200 (JArr items)
    /\ In (feed_entry (p, ub)) items.
Proof.
  intros Hwf Ha Hb Hf Hname Hnew p g' Hl.
  assert (Hwf' : wf g') by now apply create_post_wf.
  assert (Hg' : g' = add_post (u_node ub) p g)
    by (subst g'; now rewrite (create_post_fresh g ub post_id created_at
                                 payload Hwf Hb Hname Hnew)).
  apply feed_lists_all; try assumption.
  exists ua. rewrite Hg'. simpl. repeat split; try assumption.
  - apply in_app_iff. right. now left.
  - apply in_app_iff. right. now left.
Qed.

Lemma create_post_then_feed_witness :
  let p := mkPost 3 "p2" "second" "2024-05-02T08:00:00" in
  let g' := snd (create_post live "p2" "2024-05-02T08:00:00"
                             (mkPostCreate "alice" "second")
                             bob_follows_alice) in
  exists items,
    fst (get_feed live "bob" None g') = Returned 200 (JArr items)
    /\ In (feed_entry (p, alice)) items.
Proof.
  cbv zeta.
  refine (create_post_then_feed as_matched bob_follows_alice bob alice "p2"
            "2024-05-02T08:00:00" (mkPostCreate "alice" "second") None
            (serve_wf _) (or_intror (or_introl eq_refl)) (or_introl eq_refl)
            (or_introl eq_refl) eq_refl _ _).
  - intros [q [[<- | []] Hk]]. discriminate.
  - vm_compute. split; [discriminate | reflexivity].
Defined.
